(** * x2node-pointers: record element pointers (RFC 6901 JSON Pointer)

    A shallow embedding of [lib/record-element-pointer.js] and of the
    properties stated about it.

    - Strings are [string]; the operations used by the source ([split],
      [replace] with the two regular expressions, [startsWith], [indexOf],
      [substring], the array index test) are written out character by
      character.
    - The record type descriptors of [x2node-records] are an interface
      ([Schema]): the pointer code only calls their methods.
    - Records are JavaScript values living in a store of mutable objects
      ([heap]); the pointer methods run in a state-and-exception monad over
      that store, so that a mutation through one reference is seen through
      every other reference to the same object, and so that what was written
      before an exception is thrown stays written.
    - The objects of a record are plain objects: the store holds their own
      properties, and a property is read and assigned through
      [Object.prototype], as [obj[k]] and [obj[k] = v] do. *)

From stdpp Require Import base option list strings gmap.
From Stdlib Require Import Ascii NArith ZArith.

Set Warnings "-register-all".

(** ** Strings *)

Module Text.

(** [String.prototype.split('/')]: the first token, then the others. *)
Fixpoint split_tokens (s : string) : string * list string :=
  match s with
  | EmptyString => (EmptyString, [])
  | String c s' =>
      let '(t, ts) := split_tokens s' in
      if Ascii.eqb c "/"%char then (EmptyString, t :: ts) else (String c t, ts)
  end.

Definition split (s : string) : list string :=
  let '(t, ts) := split_tokens s in t :: ts.

(** [s.startsWith('/')]. *)
Definition startsWithSlash (s : string) : bool :=
  match s with
  | String c _ => Ascii.eqb c "/"%char
  | EmptyString => false
  end.

(** [tok.replace(/~[01]/g, m => (m === '~0' ? '~' : '/'))]: matches are
    found left to right and do not overlap. *)
Fixpoint unescape (s : string) : string :=
  match s with
  | EmptyString => EmptyString
  | String c s' =>
      match s' with
      | String d s'' =>
          if Ascii.eqb c "~"%char && Ascii.eqb d "0"%char then String "~"%char (unescape s'')
          else if Ascii.eqb c "~"%char && Ascii.eqb d "1"%char then String "/"%char (unescape s'')
          else String c (unescape s')
      | EmptyString => String c EmptyString
      end
  end.

(** [tok.replace(/[~\/]/g, m => (m === '~' ? '~0' : '~1'))]. *)
Fixpoint escape (s : string) : string :=
  match s with
  | EmptyString => EmptyString
  | String c s' =>
      if Ascii.eqb c "~"%char then String "~"%char (String "0"%char (escape s'))
      else if Ascii.eqb c "/"%char then String "~"%char (String "1"%char (escape s'))
      else String c (escape s')
  end.

Definition isDigit (c : ascii) : bool :=
  (48 <=? nat_of_ascii c)%nat && (nat_of_ascii c <=? 57)%nat.

Definition isNonZeroDigit (c : ascii) : bool :=
  (49 <=? nat_of_ascii c)%nat && (nat_of_ascii c <=? 57)%nat.

Fixpoint allDigits (s : string) : bool :=
  match s with
  | EmptyString => true
  | String c s' => isDigit c && allDigits s'
  end.

(** The array index test of [_createChildPointer]: the whole string is
    either the single digit 0, or a digit 1-9 followed by any number of
    digits 0-9. *)
Definition isArrayIndex (s : string) : bool :=
  match s with
  | EmptyString => false
  | String c s' =>
      (Ascii.eqb c "0"%char && match s' with EmptyString => true | _ => false end)
      || (isNonZeroDigit c && allDigits s')
  end.

(** [Number(s)] for a string of decimal digits. The value is exact; the
    source's doubles agree with it below 2^53. *)
Fixpoint numberFrom (acc : N) (s : string) : N :=
  match s with
  | EmptyString => acc
  | String c s' => numberFrom (10 * acc + (N.of_nat (nat_of_ascii c) - 48))%N s'
  end.

Definition Number (s : string) : N := numberFrom 0%N s.

(** [s.indexOf(':')], with [None] for -1. *)
Fixpoint indexOfColon (s : string) : option nat :=
  match s with
  | EmptyString => None
  | String c s' =>
      if Ascii.eqb c ":"%char then Some 0%nat else S <$> indexOfColon s'
  end.

(** [s.substring(0, n)] and [s.substring(n)]. *)
Fixpoint take (n : nat) (s : string) : string :=
  match n, s with
  | S n', String c s' => String c (take n' s')
  | _, _ => EmptyString
  end.

Fixpoint drop (n : nat) (s : string) : string :=
  match n, s with
  | S n', String _ s' => drop n' s'
  | _, _ => s
  end.

(** Every ['~'] is followed by ['0'] or ['1'], as the RFC 6901 grammar
    requires of a pointer string. *)
Fixpoint wellEscaped (s : string) : bool :=
  match s with
  | EmptyString => true
  | String c s' =>
      if Ascii.eqb c "~"%char then
        match s' with
        | String d s'' => (Ascii.eqb d "0"%char || Ascii.eqb d "1"%char) && wellEscaped s''
        | EmptyString => false
        end
      else wellEscaped s'
  end.

(** No ['/'] occurs in the string. *)
Fixpoint noSlash (s : string) : bool :=
  match s with
  | EmptyString => true
  | String c s' => negb (Ascii.eqb c "/"%char) && noSlash s'
  end.

(** The slash-joined tokens after the first: the inverse of [split] on a
    string that is empty or starts with a slash. *)
Fixpoint joinTokens (ts : list string) : string :=
  match ts with
  | [] => EmptyString
  | t :: ts' => String "/"%char (String.append t (joinTokens ts'))
  end.

(** The tokens that name an array element: the dash, unless dashes are
    disallowed, or a decimal number without a leading zero. *)
Definition acceptedArrayToken (t : string) (noDash : bool) : bool :=
  (String.eqb t "-" && negb noDash) || isArrayIndex t.

End Text.

(** ** Errors and results *)

(** The messages of the source are kept as the reason of the error and the
    string interpolated into it. *)
Inductive syntaxReason :=
  | InvalidTypeOrSyntax     (* Invalid record element pointer ... type or syntax. *)
  | UnexpectedDash          (* unexpected dash for an array index. *)
  | DashNotAllowed          (* dash not allowed for an array index in this pointer. *)
  | InvalidArrayIndex       (* invalid array index. *)
  | NoNestedElements        (* ... does not have nested elements. *)
  | NoSuchProperty.         (* no such property. *)

Inductive usageReason :=
  | ReplaceWholeRecord      (* May not replace the whole record. *)
  | UndefinedValue          (* May not use undefined as a value. *)
  | NullValue               (* May not use null as a value. *)
  | ReplaceDashIndex        (* May not replace dash index. *)
  | DeleteWholeRecord       (* May not delete the whole record. *)
  | DeleteDashIndex.        (* May not delete dash index. *)

Inductive dataReason :=
  | NoPropertyValue (pointerString : string)   (* No property value at ... *)
  | IndexOutOfBounds.                          (* Array index is out of bounds. *)

Inductive error :=
  | X2SyntaxError (why : syntaxReason) (fullPointer : string)
  | X2UsageError (why : usageReason)
  | X2DataError (why : dataReason)
  | TypeError               (* raised by the language: property of null, call of a non-function *)
  | SchemaFailure           (* raised by the record type descriptor *)
  | OutsideRecordInterface. (* the value met in the record is not of the shape
                               the record interface covers, see [getProp] *)

(** The class of an error: its constructor and reason, without the pointer
    string quoted in the message. *)
Inductive errorClass :=
  | SyntaxClass (why : syntaxReason)
  | UsageClass (why : usageReason)
  | DataClass
  | OtherClass (e : error).

Definition classOf (e : error) : errorClass :=
  match e with
  | X2SyntaxError why _ => SyntaxClass why
  | X2UsageError why => UsageClass why
  | X2DataError _ => DataClass
  | e => OtherClass e
  end.

Definition isSyntaxError (e : error) : bool :=
  match e with X2SyntaxError _ _ => true | _ => false end.

Definition isDataError (e : error) : bool :=
  match e with X2DataError _ => true | _ => false end.

Inductive outcome (A : Type) :=
  | Return (a : A)
  | Throw (e : error).
Arguments Return {A} a.
Arguments Throw {A} e.

Global Instance outcome_ret : MRet outcome := λ A a, Return a.
Global Instance outcome_bind : MBind outcome := λ A B f x,
  match x with
  | Return a => f a
  | Throw e => Throw e
  end.

(** ** The record type descriptors consumed by the pointer code *)

(** [PD] stands for [PropertyDescriptor] and [PC] for [PropertiesContainer]
    (a [RecordTypeDescriptor] is one). [nestedProperties] is [None] where the
    source reads [undefined] or [null]; [getPropertyDesc] is [None] where the
    descriptor library raises. [container.nestedPath], which is read only to
    build the text of one message, is left out. *)
Class Schema (PD PC : Type) := {
  isArray : PD → bool;
  isMap : PD → bool;
  scalarValueType : PD → string;
  name : PD → string;
  nestedProperties : PD → option PC;
  isPolymorphObject : PC → bool;
  typePropertyName : PC → string;
  nestedPath : PC → string;
  hasProperty : PC → string → bool;
  getPropertyDesc : PC → string → option PD;
}.

(** ** Pointers *)

(** [_collectionElementIndex]: a number, or a string (the dash, a map key). *)
Inductive elementIndex :=
  | IndexNumber (n : N)
  | IndexString (s : string).

Definition isDash (i : option elementIndex) : bool :=
  match i with
  | Some (IndexString s) => String.eqb s "-"
  | _ => false
  end.

Section Pointer.
Context {PD PC : Type} `{!Schema PD PC}.

(** The fields set by the constructor. [_pointerChain] is the list of the
    pointer and its ancestors and is computed from [_parent], see
    [pointerChain]. *)
Inductive RecordElementPointer := MkRecordElementPointer {
  _parent : option RecordElementPointer;
  _propDesc : option PD;
  _propPath : string;
  _collectionElement : bool;
  _collectionElementIndex : option elementIndex;
  _childrenContainer : option PC;
  _pointerString : string;
}.

Definition toString (p : RecordElementPointer) : string := _pointerString p.

Definition isRoot (p : RecordElementPointer) : bool :=
  match _parent p with None => true | Some _ => false end.

(** The constructor. [pointerToken] is only read when there is a parent. *)
Definition newRecordElementPointer
    (parent : option RecordElementPointer) (pointerToken : string)
    (propDesc : option PD) (propPath : string) (collectionElement : bool)
    (collectionElementIndex : option elementIndex)
    (childrenContainer : option PC) : RecordElementPointer :=
  {| _parent := parent;
     _propDesc := propDesc;
     _propPath := propPath;
     _collectionElement := collectionElement;
     _collectionElementIndex := collectionElementIndex;
     _childrenContainer := childrenContainer;
     _pointerString :=
       match parent with
       | Some q => toString q +:+ "/" +:+ Text.escape pointerToken
       | None => ""
       end |}.

(** [for (let p = this; p !== null; p = p._parent) push(p)]. *)
Fixpoint pointerChain (p : RecordElementPointer) : list RecordElementPointer :=
  p :: match _parent p with
       | Some q => pointerChain q
       | None => []
       end.

(** The object property part of [_createChildPointer], from the test of
    [_childrenContainer.isPolymorphObject()] on. *)
Definition objectProperty (this : RecordElementPointer)
    (pointerToken fullPointer : string) : outcome RecordElementPointer :=
  match _childrenContainer this with
  | None => Throw TypeError
  | Some cc =>
      let regular :=
        if negb (hasProperty cc pointerToken)
        then Throw (X2SyntaxError NoSuchProperty fullPointer)
        else
          match getPropertyDesc cc pointerToken with
          | None => Throw SchemaFailure
          | Some childPropDesc =>
              Return (newRecordElementPointer (Some this) pointerToken
                        (Some childPropDesc) (nestedPath cc +:+ pointerToken)
                        false None (nestedProperties childPropDesc))
          end in
      if isPolymorphObject cc then
        if String.eqb pointerToken (typePropertyName cc) then
          match getPropertyDesc cc pointerToken with
          | None => Throw SchemaFailure
          | Some d =>
              Return (newRecordElementPointer (Some this) pointerToken
                        (Some d) (nestedPath cc +:+ pointerToken)
                        false None None)
          end
        else
          match Text.indexOfColon pointerToken with
          | Some colonInd =>
              if (0 <? colonInd)%nat && (S colonInd <? String.length pointerToken)%nat then
                let subtypeName := Text.take colonInd pointerToken in
                if hasProperty cc subtypeName then
                  match getPropertyDesc cc subtypeName with
                  | None => Throw SchemaFailure
                  | Some subtypePropDesc =>
                      let propName := Text.drop (S colonInd) pointerToken in
                      match nestedProperties subtypePropDesc with
                      | None => Throw TypeError
                      | Some np =>
                          if negb (hasProperty np propName)
                          then Throw (X2SyntaxError NoSuchProperty fullPointer)
                          else
                            match getPropertyDesc np propName with
                            | None => Throw SchemaFailure
                            | Some childPropDesc =>
                                Return (newRecordElementPointer (Some this) pointerToken
                                          (Some childPropDesc)
                                          (nestedPath cc +:+ subtypeName +:+ "." +:+ propName)
                                          false None (nestedProperties childPropDesc))
                            end
                      end
                  end
                else regular
              else regular
          | None => regular
          end
      else regular
  end.

Definition _createChildPointer (this : RecordElementPointer)
    (pointerToken fullPointer : string) (noDash : bool)
    : outcome RecordElementPointer :=
  if isRoot this then objectProperty this pointerToken fullPointer
  else
    match _propDesc this with
    | None => Throw TypeError
    | Some d =>
        (* check if beyond dash *)
        if _collectionElement this && isArray d && isDash (_collectionElementIndex this)
        then Throw (X2SyntaxError UnexpectedDash fullPointer)
        (* check if array element *)
        else if negb (_collectionElement this) && isArray d then
          let dash := String.eqb pointerToken "-" in
          if dash && noDash
          then Throw (X2SyntaxError DashNotAllowed fullPointer)
          else if negb dash && negb (Text.isArrayIndex pointerToken)
          then Throw (X2SyntaxError InvalidArrayIndex fullPointer)
          else
            Return (newRecordElementPointer (Some this) pointerToken
                      (_propDesc this) (_propPath this) true
                      (Some (if dash then IndexString "-"
                             else IndexNumber (Text.Number pointerToken)))
                      (_childrenContainer this))
        (* check if map element *)
        else if negb (_collectionElement this) && isMap d then
          Return (newRecordElementPointer (Some this) pointerToken
                    (_propDesc this) (_propPath this) true
                    (Some (IndexString pointerToken))
                    (_childrenContainer this))
        (* make sure it's a nested object *)
        else if negb (String.eqb (scalarValueType d) "object")
        then Throw (X2SyntaxError NoNestedElements fullPointer)
        else objectProperty this pointerToken fullPointer
    end.

(** The loop of [parse] over the tokens after the first. *)
Fixpoint parseTokens (lastPointer : RecordElementPointer)
    (tokens : list string) (propPointer : string) (noDash : bool)
    : outcome RecordElementPointer :=
  match tokens with
  | [] => Return lastPointer
  | t :: tokens' =>
      child ← _createChildPointer lastPointer (Text.unescape t)
                propPointer noDash;
      parseTokens child tokens' propPointer noDash
  end.

(** [parse]; the pointer is a string here, so the test of its type is
    passed. *)
Definition parse (recordTypeDesc : PC) (propPointer : string) (noDash : bool)
    : outcome RecordElementPointer :=
  if (0 <? String.length propPointer)%nat && negb (Text.startsWithSlash propPointer)
  then Throw (X2SyntaxError InvalidTypeOrSyntax propPointer)
  else
    parseTokens
      (newRecordElementPointer None "" None "" false None (Some recordTypeDesc))
      (tail (Text.split propPointer)) propPointer noDash.

Definition createChildPointer (this : RecordElementPointer)
    (pointerToken : string) : outcome RecordElementPointer :=
  _createChildPointer this pointerToken
    (_pointerString this +:+ "/" +:+ pointerToken) false.

End Pointer.

Arguments RecordElementPointer PD PC : clear implicits.

(** ** Records: JavaScript values in a store of mutable objects *)

Definition loc := positive.

(** A value is a primitive, a reference to an array or an object of the
    store, or what [Object.prototype] holds under one of its names: one of
    its functions, and [Object.prototype] itself under [__proto__]. *)
Inductive jsvalue :=
  | VUndefined
  | VNull
  | VBoolean (b : bool)
  | VNumber (n : Z)
  | VString (s : string)
  | VRef (l : loc)
  | VNative (member : string).

Inductive jsobject :=
  | JArray (elems : list jsvalue)
  | JObject (props : gmap string jsvalue).

Abbreviation heap := (gmap loc jsobject).

(** A method call: it may change the store, and returns or throws; the
    store it leaves is kept in both cases. *)
Definition M (A : Type) : Type := heap → outcome A * heap.

Global Instance M_ret : MRet M := λ A a h, (Return a, h).
Global Instance M_bind : MBind M := λ A B f c h,
  match c h with
  | (Return a, h') => f a h'
  | (Throw e, h') => (Throw e, h')
  end.

Definition throw {A} (e : error) : M A := λ h, (Throw e, h).

(** [new Array()], [new Object()]: a new object at an unused location. *)
Definition alloc (o : jsobject) : M jsvalue := λ h,
  let l := fresh (dom h) in (Return (VRef l), <[l := o]> h).

(** A property key: an array index or a property name. *)
Inductive key :=
  | KNumber (n : N)
  | KString (s : string).

Definition keyOf (i : option elementIndex) : key :=
  match i with
  | Some (IndexNumber n) => KNumber n
  | Some (IndexString s) => KString s
  | None => KString "undefined"
  end.

(** The names of the members of [Object.prototype], which every object of
    a record inherits: the objects of the store are the plain objects of
    object literals, of [JSON.parse] and of [new Object()], and the store
    holds their own properties. *)
Definition objectPrototype : list string :=
  ["constructor"; "__defineGetter__"; "__defineSetter__"; "hasOwnProperty";
   "__lookupGetter__"; "__lookupSetter__"; "isPrototypeOf";
   "propertyIsEnumerable"; "toString"; "valueOf"; "__proto__";
   "toLocaleString"].

(** What an object inherits under a name. *)
Definition inherited (s : string) : jsvalue :=
  if bool_decide (s ∈ objectPrototype) then VNative s else VUndefined.

(** [obj[s]] for an object with the own properties [m]: the own property,
    or else the inherited one. *)
Definition member (m : gmap string jsvalue) (s : string) : jsvalue :=
  default (inherited s) (m !! s).

(** [obj[s] = v] for an object with the own properties [m]: the own
    properties after the assignment. Under a name other than [__proto__], or
    when [__proto__] is an own property, the value is stored as an own
    property. Otherwise the assignment goes to the setter of
    [Object.prototype]: given a value that is neither an object nor [null]
    it does nothing, given [Object.prototype] it leaves the object with the
    prototype it has, and given another object or [null] it changes the
    prototype of the object, which the store has no place for ([None]). *)
Definition assigned (m : gmap string jsvalue) (s : string) (v : jsvalue)
    : option (gmap string jsvalue) :=
  match m !! s with
  | Some _ => Some (<[s := v]> m)
  | None =>
      if String.eqb s "__proto__" then
        match v with
        | VNull | VRef _ => None
        | VNative f => if String.eqb f "__proto__" then Some m else None
        | _ => Some m
        end
      else Some (<[s := v]> m)
  end.

(** The record interface: arrays are read and written by number, objects
    by name, through the prototype chain of a plain object. A property of
    [null] or [undefined] is a [TypeError], as in the language. Any other
    use (a name on an array, a number on an object, a property of a boolean,
    a number, a string or a member of [Object.prototype], an assignment that
    changes the prototype of an object) is reported as
    [OutsideRecordInterface]: the record does not have the shape its record
    type prescribes, and nothing is stated about the call. *)

(** [obj[k]] *)
Definition getProp (obj : jsvalue) (k : key) : M jsvalue := λ h,
  match obj with
  | VUndefined | VNull => (Throw TypeError, h)
  | VRef l =>
      match h !! l, k with
      | Some (JArray xs), KNumber n =>
          (Return (default VUndefined (xs !! N.to_nat n)), h)
      | Some (JObject m), KString s =>
          (Return (member m s), h)
      | _, _ => (Throw OutsideRecordInterface, h)
      end
  | _ => (Throw OutsideRecordInterface, h)
  end.

(** [obj[k] = v]; past the end of an array the language extends it. *)
Definition setProp (obj : jsvalue) (k : key) (v : jsvalue) : M () := λ h,
  match obj with
  | VUndefined | VNull => (Throw TypeError, h)
  | VRef l =>
      match h !! l, k with
      | Some (JArray xs), KNumber n =>
          let i := N.to_nat n in
          let xs' := if decide (i < length xs)%nat then <[i := v]> xs
                     else xs ++ replicate (i - length xs) VUndefined ++ [v] in
          (Return (), <[l := JArray xs']> h)
      | Some (JObject m), KString s =>
          match assigned m s v with
          | Some m' => (Return (), <[l := JObject m']> h)
          | None => (Throw OutsideRecordInterface, h)
          end
      | _, _ => (Throw OutsideRecordInterface, h)
      end
  | _ => (Throw OutsideRecordInterface, h)
  end.

(** [delete obj[k]]: an own property is deleted, an inherited one stays. *)
Definition deleteProp (obj : jsvalue) (k : key) : M () := λ h,
  match obj with
  | VUndefined | VNull => (Throw TypeError, h)
  | VRef l =>
      match h !! l, k with
      | Some (JObject m), KString s =>
          (Return (), <[l := JObject (delete s m)]> h)
      | _, _ => (Throw OutsideRecordInterface, h)
      end
  | _ => (Throw OutsideRecordInterface, h)
  end.

(** [obj.length] *)
Definition arrayLength (obj : jsvalue) : M nat := λ h,
  match obj with
  | VUndefined | VNull => (Throw TypeError, h)
  | VRef l =>
      match h !! l with
      | Some (JArray xs) => (Return (length xs), h)
      | _ => (Throw OutsideRecordInterface, h)
      end
  | _ => (Throw OutsideRecordInterface, h)
  end.

(** [obj.push(v)]; on anything but an array [push] is not a function. *)
Definition arrayPush (obj : jsvalue) (v : jsvalue) : M () := λ h,
  match obj with
  | VRef l =>
      match h !! l with
      | Some (JArray xs) => (Return (), <[l := JArray (xs ++ [v])]> h)
      | _ => (Throw TypeError, h)
      end
  | _ => (Throw TypeError, h)
  end.

(** [obj.splice(start, deleteCount, ...items)] *)
Definition arraySplice (obj : jsvalue) (start : N) (deleteCount : nat)
    (items : list jsvalue) : M () := λ h,
  match obj with
  | VRef l =>
      match h !! l with
      | Some (JArray xs) =>
          let i := N.to_nat start in
          (Return (), <[l := JArray (take i xs ++ items ++ drop (i + deleteCount) xs)]> h)
      | _ => (Throw TypeError, h)
      end
  | _ => (Throw TypeError, h)
  end.

(** [if (obj)] *)
Definition truthy (v : jsvalue) : bool :=
  match v with
  | VUndefined | VNull => false
  | VBoolean b => b
  | VNumber n => negb (n =? 0)%Z
  | VString s => negb (String.eqb s "")
  | VRef _ | VNative _ => true
  end.

(** [(val === undefined) || (val === null)] *)
Definition isNullish (v : jsvalue) : bool :=
  match v with
  | VUndefined | VNull => true
  | _ => false
  end.

(** [Array.prototype.reduceRight] with a callback that receives the
    accumulator, the element and its index: the elements are visited from the
    last to the first. [reduceRightFrom k] is the part of the loop over the
    elements of index [k] and above. *)
Fixpoint reduceRightFrom {A B : Type} (k : nat) (f : B → A → nat → M B)
    (l : list A) (init : B) : M B :=
  match l with
  | [] => mret init
  | x :: l' => acc ← reduceRightFrom (S k) f l' init; f acc x k
  end.

Definition reduceRight {A B : Type} (f : B → A → nat → M B)
    (l : list A) (init : B) : M B :=
  reduceRightFrom 0 f l init.

(** ** Reading and changing a record through a pointer *)

Section Navigator.
Context {PD PC : Type} `{!Schema PD PC}.

Local Abbreviation Pointer := (RecordElementPointer PD PC).

(** [noValue()] of [_getImmediateValue]. *)
Definition noValue (this : Pointer) : error :=
  X2DataError (NoPropertyValue (_pointerString this)).

(** The test made on an array or map element: [((val === undefined) ||
    (val === null)) && (i > 0)]. *)
Definition elementValue (this : Pointer) (val : jsvalue) (i : nat) : M jsvalue :=
  if isNullish val && (0 <? i)%nat then throw (noValue this) else mret val.

Definition _getImmediateValue (this : Pointer) (obj : jsvalue) (i : nat)
    (forSet : bool) : M jsvalue :=
  (* return the record itself if root *)
  if isRoot this then mret obj
  else
    match _propDesc this with
    | None => throw TypeError
    | Some d =>
        (* check if array index, map key or object property *)
        if isArray d && _collectionElement this then
          if negb (isDash (_collectionElementIndex this)) then
            val ← getProp obj (keyOf (_collectionElementIndex this));
            elementValue this val i
          else mret VUndefined
        else if isMap d && _collectionElement this then
          val ← getProp obj (keyOf (_collectionElementIndex this));
          elementValue this val i
        else
          val ← getProp obj (KString (name d));
          let val := match val with VUndefined => VNull | _ => val end in
          match val with
          | VNull =>
              if (0 <? i)%nat then
                if (1 <? i)%nat then throw (noValue this)
                else if isArray d then
                  val ← alloc (JArray []);
                  _ ← (if forSet then setProp obj (KString (name d)) val
                       else mret ());
                  mret val
                else if isMap d then
                  val ← alloc (JObject ∅);
                  _ ← (if forSet then setProp obj (KString (name d)) val
                       else mret ());
                  mret val
                else throw (noValue this)
              else mret VNull
          | _ => mret val
          end
    end.

(** The trace callback is code of the caller: any method call. *)
Definition traceCallback : Type := Pointer → jsvalue → nat → M ().

(** The two callbacks given to [reduceRight] by [getValue]. *)
Definition getValueStep (obj : jsvalue) (p : Pointer) (i : nat) : M jsvalue :=
  _getImmediateValue p obj i false.

Definition getValueTraceStep (traceFunc : traceCallback)
    (obj : jsvalue) (p : Pointer) (i : nat) : M jsvalue :=
  val ← _getImmediateValue p obj i false;
  _ ← traceFunc p val i;
  mret val.

Definition getValue (this : Pointer) (record : jsvalue)
    (traceFunc : option traceCallback) : M jsvalue :=
  match traceFunc with
  | Some f => reduceRight (getValueTraceStep f) (pointerChain this) record
  | None => reduceRight getValueStep (pointerChain this) record
  end.

(** What [_setValue] does with the leaf ([i === 0]). *)
Definition setLeaf (value : jsvalue) (insert : bool) (obj : jsvalue)
    (p : Pointer) : M () :=
  match _propDesc p with
  | None => throw TypeError
  | Some d =>
      if _collectionElement p && isArray d then
        if isDash (_collectionElementIndex p) then
          if negb insert then throw (X2UsageError ReplaceDashIndex)
          else arrayPush obj value
        else
          match _collectionElementIndex p with
          | Some (IndexNumber n) =>
              len ← arrayLength obj;
              if (n <? N.of_nat len)%N then
                if insert then arraySplice obj n 0 [value]
                else setProp obj (KNumber n) value
              else throw (X2DataError IndexOutOfBounds)
          | _ => throw OutsideRecordInterface (* not built by the constructor calls *)
          end
      else if _collectionElement p && isMap d then
        setProp obj (keyOf (_collectionElementIndex p)) value
      else setProp obj (KString (name d)) value
  end.

Definition setValueStep (value : jsvalue) (insert : bool)
    (obj : jsvalue) (p : Pointer) (i : nat) : M jsvalue :=
  c ← _getImmediateValue p obj i true;
  _ ← (if (i =? 0)%nat then setLeaf value insert obj p else mret ());
  mret c.

(** The tests of [_setValue] on the pointer and the value, made before the
    record is looked at. *)
Definition checkValue (this : Pointer) (value : jsvalue) : outcome () :=
  if isRoot this then Throw (X2UsageError ReplaceWholeRecord)
  else
    match value with
    | VUndefined => Throw (X2UsageError UndefinedValue)
    | VNull =>
        if _collectionElement this then
          match _propDesc this with
          | None => Throw TypeError
          | Some d =>
              if String.eqb (scalarValueType d) "object"
              then Throw (X2UsageError NullValue)
              else Return ()
          end
        else Return ()
    | _ => Return ()
    end.

Definition _setValue (this : Pointer) (record value : jsvalue)
    (insert : bool) : M jsvalue :=
  match checkValue this value with
  | Throw e => throw e
  | Return _ =>
      reduceRight (setValueStep value insert) (pointerChain this) record
  end.

Definition addValue (this : Pointer) (record value : jsvalue) : M jsvalue :=
  _setValue this record value true.

Definition replaceValue (this : Pointer) (record value : jsvalue) : M jsvalue :=
  _setValue this record value false.

(** What [removeValue] does with the leaf ([i === 0]). *)
Definition removeLeaf (obj : jsvalue) (p : Pointer) : M () :=
  match _propDesc p with
  | None => throw TypeError
  | Some d =>
      if _collectionElement p && isArray d then
        if isDash (_collectionElementIndex p) then
          throw (X2UsageError DeleteDashIndex)
        else if truthy obj then
          match _collectionElementIndex p with
          | Some (IndexNumber n) =>
              len ← arrayLength obj;
              if (n <? N.of_nat len)%N then arraySplice obj n 1 []
              else throw (X2DataError IndexOutOfBounds)
          | _ => throw OutsideRecordInterface (* not built by the constructor calls *)
          end
        else throw (X2DataError IndexOutOfBounds)
      else if truthy obj then
        if _collectionElement p && isMap d then
          deleteProp obj (keyOf (_collectionElementIndex p))
        else deleteProp obj (KString (name d))
      else mret ()
  end.

Definition removeValueStep (obj : jsvalue) (p : Pointer) (i : nat) : M jsvalue :=
  c ← _getImmediateValue p obj i false;
  _ ← (if (i =? 0)%nat then removeLeaf obj p else mret ());
  mret c.

Definition removeValue (this : Pointer) (record : jsvalue) : M jsvalue :=
  if isRoot this then throw (X2UsageError DeleteWholeRecord)
  else reduceRight removeValueStep (pointerChain this) record.

(** The three operations that change a record, to state what they share. *)
Inductive operation :=
  | OpAdd (value : jsvalue)
  | OpReplace (value : jsvalue)
  | OpRemove.

Definition run (op : operation) (this : Pointer) (record : jsvalue) : M jsvalue :=
  match op with
  | OpAdd value => addValue this record value
  | OpReplace value => replaceValue this record value
  | OpRemove => removeValue this record
  end.

(** The callback the operation gives to [reduceRight]. *)
Definition stepOf (op : operation) : jsvalue → Pointer → nat → M jsvalue :=
  match op with
  | OpAdd value => setValueStep value true
  | OpReplace value => setValueStep value false
  | OpRemove => removeValueStep
  end.

(** Whether the operation reads with [forSet] set. *)
Definition forSetOf (op : operation) : bool :=
  match op with OpRemove => false | _ => true end.

(** The value given to the operation passes the tests of [_setValue]. *)
Definition valueAccepted (op : operation) (this : Pointer) : Prop :=
  match op with
  | OpAdd value | OpReplace value => checkValue this value = Return ()
  | OpRemove => True
  end.

(** The nodes above a pointer in its chain. *)
Definition ancestors (this : Pointer) : list Pointer :=
  match _parent this with
  | Some q => pointerChain q
  | None => []
  end.

(** The pointers [parse] and [createChildPointer] can build for a record
    type: the root pointer and the children made by [_createChildPointer]. *)
Inductive validPointer (recordTypeDesc : PC) : Pointer → Prop :=
  | valid_root :
      validPointer recordTypeDesc
        (newRecordElementPointer None "" None "" false None (Some recordTypeDesc))
  | valid_child p pointerToken fullPointer noDash child :
      validPointer recordTypeDesc p →
      _createChildPointer p pointerToken fullPointer noDash = Return child →
      validPointer recordTypeDesc child.

(** What a leaf that addresses nothing in its parent [parent] looks like,
    and the value [getValue] is to give for it: a property that reads
    [null] or [undefined], an index past the end of an array, a key that a
    map neither has nor inherits. *)
Inductive absentLeaf (this : Pointer) (d : PD) (parent : jsvalue) (h : heap)
    : jsvalue → Prop :=
  | absent_property lo m :
      _collectionElement this = false →
      parent = VRef lo → h !! lo = Some (JObject m) →
      isNullish (member m (name d)) = true →
      absentLeaf this d parent h VNull
  | absent_array_element la xs n :
      _collectionElement this = true → isArray d = true →
      _collectionElementIndex this = Some (IndexNumber n) →
      parent = VRef la → h !! la = Some (JArray xs) →
      xs !! N.to_nat n = None →
      absentLeaf this d parent h VUndefined
  | absent_map_element lm m k :
      _collectionElement this = true → isArray d = false → isMap d = true →
      _collectionElementIndex this = Some (IndexString k) →
      parent = VRef lm → h !! lm = Some (JObject m) →
      m !! k = None → k ∉ objectPrototype →
      absentLeaf this d parent h VUndefined.

End Navigator.

(** Every object of the store [h] is the same in [h']. *)
Definition unchanged (h h' : heap) : Prop :=
  ∀ l o, h !! l = Some o → h' !! l = Some o.

(** Two results of a pointer construction agree: the same pointer, or errors
    of the same class. *)
Definition agree {A} (x y : outcome A) : Prop :=
  match x, y with
  | Return a, Return b => a = b
  | Throw e, Throw e' => classOf e = classOf e'
  | _, _ => False
  end.

(** ** A record type library to run the code on

    An order with an array of nested objects, a map, a nested object and a
    polymorphic nested object with subtypes OPENED and CLOSED. *)

Module Sample.

Inductive container := Order | Item | Address | Event | Opened | Closed.

Inductive property :=
  | P_id | P_items | P_tags | P_address | P_lastEvent
  | P_quantity | P_notes
  | P_city | P_lines
  | P_eventType | P_happenedOn | P_OPENED | P_CLOSED
  | P_byWho | P_reason.

Definition properties (c : container) : list (string * property) :=
  match c with
  | Order => [("id", P_id); ("items", P_items); ("tags", P_tags);
              ("address", P_address); ("lastEvent", P_lastEvent)]
  | Item => [("quantity", P_quantity); ("notes", P_notes)]
  | Address => [("city", P_city); ("lines", P_lines)]
  | Event => [("eventType", P_eventType); ("happenedOn", P_happenedOn);
              ("OPENED", P_OPENED); ("CLOSED", P_CLOSED)]
  | Opened => [("byWho", P_byWho)]
  | Closed => [("reason", P_reason)]
  end.

Fixpoint lookup (s : string) (l : list (string * property)) : option property :=
  match l with
  | [] => None
  | (k, p) :: l' => if String.eqb k s then Some p else lookup s l'
  end.

Definition propertyName (p : property) : string :=
  match p with
  | P_id => "id" | P_items => "items" | P_tags => "tags"
  | P_address => "address" | P_lastEvent => "lastEvent"
  | P_quantity => "quantity" | P_notes => "notes"
  | P_city => "city" | P_lines => "lines"
  | P_eventType => "eventType" | P_happenedOn => "happenedOn"
  | P_OPENED => "OPENED" | P_CLOSED => "CLOSED"
  | P_byWho => "byWho" | P_reason => "reason"
  end.

Definition nested (p : property) : option container :=
  match p with
  | P_items => Some Item
  | P_address => Some Address
  | P_lastEvent => Some Event
  | P_OPENED => Some Opened
  | P_CLOSED => Some Closed
  | _ => None
  end.

Definition path (c : container) : string :=
  match c with
  | Order => ""
  | Item => "items."
  | Address => "address."
  | Event => "lastEvent."
  | Opened => "lastEvent.OPENED."
  | Closed => "lastEvent.CLOSED."
  end.

Global Instance schema : Schema property container := {|
  isArray p := match p with P_items | P_lines => true | _ => false end;
  isMap p := match p with P_tags | P_notes => true | _ => false end;
  scalarValueType p :=
    match nested p with
    | Some _ => "object"
    | None => match p with P_id | P_quantity => "number" | _ => "string" end
    end;
  name := propertyName;
  nestedProperties := nested;
  isPolymorphObject c := match c with Event => true | _ => false end;
  typePropertyName c := "eventType";
  nestedPath := path;
  hasProperty c s := match lookup s (properties c) with Some _ => true | None => false end;
  getPropertyDesc c s := lookup s (properties c);
|}.

Abbreviation Pointer := (RecordElementPointer property container).

(** The pointer parsed from a string, the root pointer if it is refused. *)
Definition pointer (s : string) : Pointer :=
  match parse Order s false with
  | Return p => p
  | Throw _ => newRecordElementPointer None "" None "" false None (Some Order)
  end.

(** A trace callback that does nothing. *)
Definition noTrace : traceCallback (PD := property) (PC := container) :=
  λ _ _ _, mret ().

(** Stores: the record is the object at location 1. *)
Definition record : jsvalue := VRef 1%positive.

(** [{}] *)
Definition emptyOrder : heap := {[ 1%positive := JObject ∅ ]}.

(** [{items: [{quantity: 2}]}] *)
Definition order : heap :=
  <[ 1%positive := JObject {[ "items" := VRef 2%positive ]} ]>
  (<[ 2%positive := JArray [VRef 3%positive] ]>
  {[ 3%positive := JObject {[ "quantity" := VNumber 2 ]} ]}).

(** [{items: [], tags: {a: "x"}, address: {city: "Oslo"}}] *)
Definition order2 : heap :=
  <[ 1%positive := JObject (<[ "items" := VRef 2%positive ]>
                           (<[ "tags" := VRef 3%positive ]>
                            {[ "address" := VRef 4%positive ]})) ]>
  (<[ 2%positive := JArray [] ]>
  (<[ 3%positive := JObject {[ "a" := VString "x" ]} ]>
  {[ 4%positive := JObject {[ "city" := VString "Oslo" ]} ]})).

End Sample.

(** ** The rest of the pointer class *)

(** [s.startsWith(prefix)] *)
Fixpoint startsWith (s prefix : string) {struct prefix} : bool :=
  match prefix, s with
  | EmptyString, _ => true
  | String c prefix', String d s' => Ascii.eqb c d && startsWith s' prefix'
  | String _ _, EmptyString => false
  end.

Section Accessors.
Context {PD PC : Type} `{!Schema PD PC}.

(** [isChildOf]: the other pointer is a proper prefix of this one. *)
Definition isChildOf (this otherPtr : RecordElementPointer PD PC) : bool :=
  startsWith (_pointerString this) (toString otherPtr +:+ "/").

(** The getters. *)
Definition propDesc (this : RecordElementPointer PD PC) : option PD :=
  _propDesc this.

Definition propPath (this : RecordElementPointer PD PC) : string :=
  _propPath this.

Definition collectionElement (this : RecordElementPointer PD PC) : bool :=
  _collectionElement this.

Definition collectionElementIndex (this : RecordElementPointer PD PC)
    : option elementIndex :=
  _collectionElementIndex this.

(** The test of [_createChildPointer] for a pointer past which nothing may
    follow: an array element whose index is the dash. *)
Definition isDashElement (this : RecordElementPointer PD PC) : bool :=
  match _propDesc this with
  | Some d =>
      _collectionElement this && isArray d && isDash (_collectionElementIndex this)
  | None => false
  end.

(** The name under which [_getImmediateValue], [_setValue] and
    [removeValue] look the leaf up in its parent, when they look it up by
    name: the key of a map element, the name of a property. *)
Definition leafName (this : RecordElementPointer PD PC) : option string :=
  match _propDesc this with
  | Some d =>
      if _collectionElement this && isArray d then None
      else if _collectionElement this && isMap d then
        match keyOf (_collectionElementIndex this) with
        | KString s => Some s
        | KNumber _ => None
        end
      else Some (name d)
  | None => None
  end.

(** The root pointer made by [parse]. *)
Definition rootPointer (recordTypeDesc : PC) : RecordElementPointer PD PC :=
  newRecordElementPointer None "" None "" false None (Some recordTypeDesc).

End Accessors.

(** Every object of the store [h] that none of the values [keep] refers to
    is the same in [h']. *)
Definition unchangedExcept (keep : list jsvalue) (h h' : heap) : Prop :=
  ∀ l o, h !! l = Some o → VRef l ∉ keep → h' !! l = Some o.

(** * Properties *)

(** ** Strings: tokens, escaping *)

Example split_example : Text.split "/a//b" = [""; "a"; ""; "b"].
Proof. reflexivity. Qed.
Example unescape_example : Text.unescape "a~1b~01~" = "a/b~1~".
Proof. reflexivity. Qed.
Example escape_example : Text.escape "a/b~1" = "a~1b~01".
Proof. reflexivity. Qed.
Example isArrayIndex_example :
  map Text.isArrayIndex ["0"; "10"; "01"; ""; "-"; "1a"] = [true; true; false; false; false; false].
Proof. reflexivity. Qed.

Module TextFacts.
Import Text.

Lemma unescape_cons_other c s :
  Ascii.eqb c "~"%char = false → unescape (String c s) = String c (unescape s).
Proof.
  intros Hc. destruct s as [|d s]; simpl; [done|]. by rewrite Hc.
Qed.

(** Unescaping undoes escaping, on every token. *)
Lemma unescape_escape t : unescape (escape t) = t.
Proof.
  induction t as [|c t IH]; [done|].
  cbn [escape].
  destruct (Ascii.eqb_spec c "~"%char) as [->|Hc].
  { cbn. by rewrite IH. }
  destruct (Ascii.eqb_spec c "/"%char) as [->|Hs].
  { cbn. by rewrite IH. }
  rewrite unescape_cons_other, IH; [done|].
  by apply Ascii.eqb_neq.
Qed.

Lemma noSlash_escape t : noSlash (escape t) = true.
Proof.
  induction t as [|c t IH]; [done|].
  cbn [escape].
  destruct (Ascii.eqb_spec c "~"%char) as [->|Hc]; [by cbn; rewrite IH|].
  destruct (Ascii.eqb_spec c "/"%char) as [->|Hs]; [by cbn; rewrite IH|].
  cbn. rewrite IH. apply Ascii.eqb_neq in Hs. by rewrite Hs.
Qed.

(** Escaping undoes unescaping on a token where every tilde starts an
    escape; proved for a token and for the token after one more character. *)
Lemma escape_unescape_two t :
  (wellEscaped t = true → noSlash t = true → escape (unescape t) = t) ∧
  (∀ c, wellEscaped (String c t) = true → noSlash (String c t) = true →
        escape (unescape (String c t)) = String c t).
Proof.
  induction t as [|d t [IH1 IH2]].
  - split; [done|]. intros c Hw Hn. cbn in *.
    destruct (Ascii.eqb c "~"%char); [done|].
    destruct (Ascii.eqb c "/"%char); done.
  - split; [intros; by apply IH2|].
    intros c Hw Hn.
    cbn [wellEscaped] in Hw. cbn [noSlash] in Hn.
    apply andb_prop in Hn as [Hc Hn].
    destruct (Ascii.eqb c "~"%char) eqn:Hc'; [apply Ascii.eqb_eq in Hc'; subst c|apply Ascii.eqb_neq in Hc'].
    + apply andb_prop in Hw as [Hd Hw].
      cbn [noSlash] in Hn. apply andb_prop in Hn as [_ Hn].
      apply orb_prop in Hd as [Hd|Hd]; apply Ascii.eqb_eq in Hd; subst d;
        cbn; by rewrite IH1.
    + rewrite unescape_cons_other by (by apply Ascii.eqb_neq).
      cbn [escape]. apply Ascii.eqb_neq in Hc'. rewrite Hc'.
      apply negb_true_iff in Hc. rewrite Hc.
      f_equal. by apply IH2.
Qed.

Lemma escape_unescape t :
  wellEscaped t = true → noSlash t = true → escape (unescape t) = t.
Proof. apply escape_unescape_two. Qed.

(** [split] and the string it was made from. *)
Lemma split_tokens_join s :
  s = (split_tokens s).1 +:+ joinTokens (split_tokens s).2.
Proof.
  induction s as [|c s IH]; [done|].
  cbn [split_tokens]. destruct (split_tokens s) as [t ts]. cbn in IH.
  destruct (Ascii.eqb_spec c "/"%char) as [->|Hc]; cbn; by rewrite IH at 1.
Qed.

Lemma split_tokens_noSlash s :
  noSlash (split_tokens s).1 = true ∧
  Forall (λ t, noSlash t = true) (split_tokens s).2.
Proof.
  induction s as [|c s [IH1 IH2]]; [by split|].
  cbn [split_tokens]. destruct (split_tokens s) as [t ts]. cbn in IH1, IH2.
  destruct (Ascii.eqb_spec c "/"%char) as [->|Hc]; cbn.
  - split; [done|]. by constructor.
  - apply Ascii.eqb_neq in Hc. by rewrite Hc, IH1.
Qed.

Lemma split_tokens_wellEscaped_two s :
  (wellEscaped s = true →
     wellEscaped (split_tokens s).1 = true ∧
     Forall (λ t, wellEscaped t = true) (split_tokens s).2) ∧
  (∀ c, wellEscaped (String c s) = true →
     wellEscaped (split_tokens (String c s)).1 = true ∧
     Forall (λ t, wellEscaped t = true) (split_tokens (String c s)).2).
Proof.
  induction s as [|d s [IH1 IH2]].
  - split; [done|]. intros c Hw. cbn in *.
    destruct (Ascii.eqb c "~"%char) eqn:E; [done|].
    destruct (Ascii.eqb c "/"%char); cbn; [by repeat constructor|].
    by rewrite E.
  - split; [intros; by apply IH2|].
    intros c Hw. cbn [wellEscaped] in Hw.
    destruct (Ascii.eqb c "~"%char) eqn:Hc'; [apply Ascii.eqb_eq in Hc'; subst c|apply Ascii.eqb_neq in Hc'].
    + apply andb_prop in Hw as [Hd Hw].
      destruct (IH1 Hw) as [H1 H2].
      cbn [split_tokens]. destruct (split_tokens s) as [t ts]. cbn in H1, H2.
      apply orb_prop in Hd as [Hd|Hd]; apply Ascii.eqb_eq in Hd; subst d;
        cbn; by rewrite H1.
    + destruct (IH2 _ Hw) as [H1 H2].
      change (split_tokens (String c (String d s))) with
        (let '(t, ts) := split_tokens (String d s) in
         if Ascii.eqb c "/"%char then (EmptyString, t :: ts) else (String c t, ts)).
      destruct (split_tokens (String d s)) as [t ts]. cbn in H1, H2.
      destruct (Ascii.eqb c "/"%char) eqn:Es; cbn.
      * split; [done|]. by constructor.
      * apply Ascii.eqb_neq in Hc'. rewrite Hc'. by split.
Qed.

Lemma split_wellEscaped s :
  wellEscaped s = true → Forall (λ t, wellEscaped t = true) (split s).
Proof.
  intros Hw. unfold split.
  destruct (proj1 (split_tokens_wellEscaped_two s) Hw) as [H1 H2].
  destruct (split_tokens s). by constructor.
Qed.

Lemma split_noSlash s : Forall (λ t, noSlash t = true) (split s).
Proof.
  unfold split. destruct (split_tokens_noSlash s) as [H1 H2].
  destruct (split_tokens s). by constructor.
Qed.

(** A string that is empty or starts with a slash is the slash-joined list
    of its tokens after the first. *)
Lemma join_tail_split s :
  s = "" ∨ startsWithSlash s = true → joinTokens (tail (split s)) = s.
Proof.
  intros Hs. unfold split. pose proof (split_tokens_join s) as Hj.
  destruct s as [|c s]; [done|].
  destruct Hs as [?|Hs]; [done|]. cbn in Hs.
  cbn [split_tokens] in *. rewrite Hs in *.
  destruct (split_tokens s) as [t ts]. cbn in *. done.
Qed.

Lemma string_app_nil_l (a : string) : "" +:+ a = a.
Proof. reflexivity. Qed.

Lemma string_app_cons c (a b : string) : String c a +:+ b = String c (a +:+ b).
Proof. reflexivity. Qed.

Lemma string_app_assoc (a b c : string) : (a +:+ b) +:+ c = a +:+ b +:+ c.
Proof. induction a as [|x a IH]; [done|]. by rewrite !string_app_cons, IH. Qed.

Lemma string_app_empty_r (a : string) : a +:+ "" = a.
Proof. induction a as [|x a IH]; [done|]. by rewrite string_app_cons, IH. Qed.

Lemma split_app_slash a b : split (a +:+ "/" +:+ b) = split a ++ split b.
Proof.
  unfold split. induction a as [|c a IH].
  - rewrite string_app_nil_l, string_app_cons, string_app_nil_l.
    cbn. by destruct (split_tokens b).
  - rewrite string_app_cons. cbn [split_tokens].
    destruct (split_tokens (a +:+ "/" +:+ b)) as [t ts].
    destruct (split_tokens a) as [ta tsa]. destruct (split_tokens b) as [tb tsb].
    cbn in IH. injection IH as -> ->.
    by destruct (Ascii.eqb c "/"%char).
Qed.

Lemma split_noSlash_single b : noSlash b = true → split b = [b].
Proof.
  unfold split. induction b as [|c b IH]; [done|].
  cbn. intros [Hc Hb]%andb_prop. apply negb_true_iff in Hc. rewrite Hc.
  specialize (IH Hb). destruct (split_tokens b). by injection IH as -> ->.
Qed.

End TextFacts.

(** ** Parsing and printing pointers *)

Section PointerFacts.
Context {PD PC : Type} `{!Schema PD PC}.
Import Text TextFacts.

Lemma outcome_bind_Return {A B} (x : outcome A) (f : A → outcome B) b :
  x ≫= f = Return b → ∃ a, x = Return a ∧ f a = Return b.
Proof. destruct x as [a|e]; [by exists a|done]. Qed.

Lemma outcome_bind_id {A} (x : outcome A) : (x ≫= λ a, Return a) = x.
Proof. by destruct x. Qed.

Ltac child_cases :=
  unfold _createChildPointer, objectProperty;
  repeat (case_match; try done).

(** A child made by [_createChildPointer] prints as its parent, a slash
    and the escaped token. *)
Lemma createChild_toString (p : RecordElementPointer PD PC) t f nd q :
  _createChildPointer p t f nd = Return q →
  _parent q = Some p ∧ toString q = toString p +:+ "/" +:+ escape t.
Proof. child_cases; intros [= <-]; done. Qed.

(** The pointer made does not depend on the string kept for the message,
    and a pointer made with [noDash] set is made without it as well. *)
Lemma createChild_Return_indep (p : RecordElementPointer PD PC) t f f' nd q :
  _createChildPointer p t f nd = Return q →
  _createChildPointer p t f' false = Return q.
Proof.
  unfold _createChildPointer, objectProperty.
  repeat (case_match; try done); rewrite ?andb_false_r in *; simplify_eq; done.
Qed.

(** With the same [noDash], the string kept for the message changes
    nothing but the message. *)
Lemma createChild_agree (p : RecordElementPointer PD PC) t f f' nd :
  agree (_createChildPointer p t f nd) (_createChildPointer p t f' nd).
Proof. child_cases. Qed.

Lemma parseTokens_app (p : RecordElementPointer PD PC) l1 l2 f nd :
  parseTokens p (l1 ++ l2) f nd =
  parseTokens p l1 f nd ≫= λ q, parseTokens q l2 f nd.
Proof.
  revert p. induction l1 as [|t l1 IH]; intros p; [done|].
  cbn [app parseTokens].
  destruct (_createChildPointer p (unescape t) f nd) as [q|e]; [|done].
  cbn. apply IH.
Qed.

Lemma parseTokens_toString (p : RecordElementPointer PD PC) toks f nd q :
  parseTokens p toks f nd = Return q →
  toString q = toString p +:+ joinTokens ((λ t, escape (unescape t)) <$> toks).
Proof.
  revert p. induction toks as [|t toks IH]; intros p.
  - intros [= <-]. cbn. by rewrite string_app_empty_r.
  - cbn [parseTokens]. intros (c & Hc & Hq)%outcome_bind_Return.
    apply createChild_toString in Hc as [_ Hc].
    rewrite (IH _ Hq), Hc. cbn [fmap list_fmap joinTokens].
    by rewrite !string_app_assoc.
Qed.

Lemma parseTokens_Return_indep (p : RecordElementPointer PD PC) toks f f' nd q :
  parseTokens p toks f nd = Return q →
  parseTokens p toks f' false = Return q.
Proof.
  revert p. induction toks as [|t toks IH]; intros p; [done|].
  cbn [parseTokens]. intros (c & Hc & Hq)%outcome_bind_Return.
  rewrite (createChild_Return_indep _ _ _ f' _ _ Hc). cbn. by apply IH.
Qed.

Lemma parse_guard s :
  (0 <? String.length s)%nat && negb (startsWithSlash s) = false →
  s = "" ∨ startsWithSlash s = true.
Proof.
  destruct s as [|c s]; [by left|]. cbn. intros H. right.
  by destruct (Ascii.eqb c "/"%char).
Qed.

(** C4. Round trip: a pointer string in which every tilde starts an escape
    (the syntax of RFC 6901) and which [parse] accepts for a record type is
    printed back unchanged by [toString]; on each of its tokens the
    unescaping of [parse] and the escaping of the constructor are inverse
    of each other. *)
Theorem parse_toString_roundtrip (recordTypeDesc : PC) s noDash (p : RecordElementPointer PD PC) :
  wellEscaped s = true →
  parse recordTypeDesc s noDash = Return p →
  toString p = s ∧
  ∀ t, t ∈ tail (split s) →
    escape (unescape t) = t ∧ unescape (escape (unescape t)) = unescape t.
Proof.
  intros Hw Hparse.
  pose proof (split_wellEscaped s Hw) as H1.
  pose proof (split_noSlash s) as H2.
  assert (Forall (λ t, escape (unescape t) = t) (tail (split s))) as Htok.
  { destruct (split s) as [|t0 ts]; [done|]. cbn [tail].
    apply Forall_cons in H1 as [_ H1]. apply Forall_cons in H2 as [_ H2].
    induction ts as [|t ts IH]; [done|].
    apply Forall_cons in H1 as [Ht1 H1]. apply Forall_cons in H2 as [Ht2 H2].
    constructor; [by apply escape_unescape|by apply IH]. }
  split.
  - revert Hparse. unfold parse.
    destruct ((0 <? String.length s)%nat && negb (startsWithSlash s)) eqn:Hg; [done|].
    intros Hp. apply parseTokens_toString in Hp. rewrite Hp.
    cbn [toString newRecordElementPointer _pointerString].
    rewrite string_app_nil_l.
    rewrite <- (join_tail_split s) at 2 by by apply parse_guard.
    f_equal. clear Hp H1 H2.
    induction Htok as [|t ts Ht _ IH]; [done|].
    cbn. by rewrite Ht, IH.
  - intros t Ht. split; [|apply unescape_escape].
    by eapply Forall_forall in Htok.
Qed.

(** What [parse] returns is a pointer built for the record type. *)
Lemma parseTokens_valid (rtd : PC) (p : RecordElementPointer PD PC) toks f nd q :
  validPointer rtd p → parseTokens p toks f nd = Return q → validPointer rtd q.
Proof.
  revert p. induction toks as [|t toks IH]; intros p Hp; [by intros [= <-]|].
  cbn [parseTokens]. intros (c & Hc & Hq)%outcome_bind_Return.
  eapply IH; [|done]. by eapply valid_child.
Qed.

Lemma parse_valid (rtd : PC) s nd (p : RecordElementPointer PD PC) :
  parse rtd s nd = Return p → validPointer rtd p.
Proof.
  unfold parse. case_match; [done|].
  apply parseTokens_valid, valid_root.
Qed.

Lemma validPointer_toString (rtd : PC) (p : RecordElementPointer PD PC) :
  validPointer rtd p → toString p = "" ∨ startsWithSlash (toString p) = true.
Proof.
  induction 1 as [|p t f nd c Hp IH Hc]; [by left|].
  apply createChild_toString in Hc as [_ ->]. right.
  destruct IH as [->|IH]; [done|].
  destruct (toString p); done.
Qed.

(** Parsing the string of a valid pointer gives the pointer back. *)
Lemma validPointer_reparse (rtd : PC) (p : RecordElementPointer PD PC) f :
  validPointer rtd p →
  parseTokens (newRecordElementPointer None "" None "" false None (Some rtd))
    (tail (split (toString p))) f false = Return p.
Proof.
  induction 1 as [|p t f' nd c Hp IH Hc]; [done|].
  destruct (createChild_toString _ _ _ _ _ Hc) as [_ ->].
  rewrite split_app_slash, (split_noSlash_single (escape t)) by apply noSlash_escape.
  assert (∀ l l' : list string, l ≠ [] → tail (l ++ l') = tail l ++ l') as Htail
    by (intros [|] ?; done).
  rewrite Htail by (unfold split; by destruct (split_tokens _)).
  rewrite parseTokens_app, IH. cbn.
  rewrite unescape_escape.
  by rewrite (createChild_Return_indep _ _ _ f _ _ Hc).
Qed.

(** C5. For a pointer [p] built for a record type and any token [t],
    [createChildPointer] gives what [parse] gives for the string of [p]
    followed by a slash and the escaped token: the same pointer (so the
    same string, property descriptor, property path, collection element
    flag and element index), or an error of the same class, in particular
    the same kind of [X2SyntaxError]. *)
Theorem createChildPointer_parse (recordTypeDesc : PC) (p : RecordElementPointer PD PC) t :
  validPointer recordTypeDesc p →
  agree (createChildPointer p t)
        (parse recordTypeDesc (toString p +:+ "/" +:+ escape t) false).
Proof.
  intros Hp. unfold parse, createChildPointer.
  set (full := toString p +:+ "/" +:+ escape t).
  assert ((0 <? String.length full)%nat && negb (startsWithSlash full) = false) as ->.
  { subst full. destruct (validPointer_toString _ _ Hp) as [->|Hs]; [done|].
    destruct (toString p) as [|a s']; [done|].
    rewrite string_app_cons. cbn in *. by rewrite Hs. }
  subst full.
  rewrite split_app_slash, (split_noSlash_single (escape t)) by apply noSlash_escape.
  assert (∀ l l' : list string, l ≠ [] → tail (l ++ l') = tail l ++ l') as Htail
    by (intros [|] ?; done).
  rewrite Htail by (unfold split; by destruct (split_tokens _)).
  rewrite parseTokens_app, validPointer_reparse by done. cbn.
  rewrite unescape_escape.
  change (parseTokens ?q [] ?f ?nd) with (Return q : outcome (RecordElementPointer PD PC)).
  rewrite outcome_bind_id. apply createChild_agree.
Qed.

(** C7. At a node whose property is an array and which is not yet an
    element of it, [_createChildPointer] (the one step of [parse] and of
    [createChildPointer]) accepts a token exactly when it is the dash, with
    dashes allowed, or a decimal number without a leading zero; it refuses
    every other token with an [X2SyntaxError]; and after an accepted dash
    every further token is refused with an [X2SyntaxError]. The same is
    stated for [createChildPointer], where dashes are allowed, and for the
    loop of [parse]: it throws an [X2SyntaxError] on a refused token and on
    a dash that is not the last token, and goes on from the child on an
    accepted token. *)
Theorem array_element_token (this : RecordElementPointer PD PC) d :
  isRoot this = false → _propDesc this = Some d →
  _collectionElement this = false → isArray d = true →
  (∀ t f noDash,
     match _createChildPointer this t f noDash with
     | Return child =>
         acceptedArrayToken t noDash = true ∧
         _collectionElement child = true ∧
         (t = "-" → ∀ t' f' noDash',
            _createChildPointer child t' f' noDash' =
            Throw (X2SyntaxError UnexpectedDash f'))
     | Throw e =>
         acceptedArrayToken t noDash = false ∧ isSyntaxError e = true
     end) ∧
  (∀ t,
     match createChildPointer this t with
     | Return _ => t = "-" ∨ isArrayIndex t = true
     | Throw e => t ≠ "-" ∧ isArrayIndex t = false ∧ isSyntaxError e = true
     end) ∧
  (∀ raw rest f noDash,
     (acceptedArrayToken (unescape raw) noDash = false ∨
      (unescape raw = "-" ∧ rest ≠ [])) →
     ∃ why, parseTokens this (raw :: rest) f noDash = Throw (X2SyntaxError why f)) ∧
  (∀ raw rest f noDash,
     acceptedArrayToken (unescape raw) noDash = true →
     ∃ child, _createChildPointer this (unescape raw) f noDash = Return child ∧
              parseTokens this (raw :: rest) f noDash
                = parseTokens child rest f noDash).
Proof.
  intros Hroot Hd Hce Harr.
  assert (∀ t f noDash,
     match _createChildPointer this t f noDash with
     | Return child =>
         acceptedArrayToken t noDash = true ∧
         _collectionElement child = true ∧
         (t = "-" → ∀ t' f' noDash',
            _createChildPointer child t' f' noDash' =
            Throw (X2SyntaxError UnexpectedDash f'))
     | Throw e =>
         acceptedArrayToken t noDash = false ∧
         (e = X2SyntaxError DashNotAllowed f ∨ e = X2SyntaxError InvalidArrayIndex f)
     end) as Hstep.
  { intros t f noDash. unfold _createChildPointer, acceptedArrayToken.
    rewrite Hroot, Hd, Hce, Harr. cbn [andb negb].
    destruct (String.eqb_spec t "-") as [->|Hne].
    - destruct noDash; cbn; [by eauto|].
      repeat split; try done.
      intros _ t' f' nd'. unfold _createChildPointer. cbn. by rewrite Harr.
    - cbn. destruct (isArrayIndex t) eqn:Hi; cbn; [|by eauto].
      repeat split; done. }
  split; [|split; [|split]].
  - intros t f noDash. specialize (Hstep t f noDash).
    destruct (_createChildPointer this t f noDash); [done|].
    destruct Hstep as [? [->| ->]]; done.
  - intros t. unfold createChildPointer.
    specialize (Hstep t (_pointerString this +:+ "/" +:+ t) false).
    destruct (_createChildPointer this t _ false).
    + destruct Hstep as [Ha _]. unfold acceptedArrayToken in Ha.
      apply orb_prop in Ha as [Ha|Ha]; [left|by right].
      apply andb_prop in Ha as [Ha _]. by apply String.eqb_eq.
    + destruct Hstep as [Ha He]. unfold acceptedArrayToken in Ha.
      apply orb_false_elim in Ha as [Ha Hi]. rewrite andb_true_r in Ha.
      apply String.eqb_neq in Ha. by destruct He as [-> | ->].
  - intros raw rest f noDash Hcase. cbn [parseTokens].
    specialize (Hstep (unescape raw) f noDash).
    destruct (_createChildPointer this (unescape raw) f noDash) as [child|e].
    + destruct Hstep as (Ha & _ & Hdash).
      destruct Hcase as [Hcase|[Hraw Hrest]]; [congruence|].
      destruct rest as [|raw' rest]; [done|]. cbn.
      rewrite (Hdash Hraw). eauto.
    + destruct Hstep as [_ [-> | ->]]; cbn; eauto.
  - intros raw rest f noDash Hacc. cbn [parseTokens].
    specialize (Hstep (unescape raw) f noDash).
    destruct (_createChildPointer this (unescape raw) f noDash) as [child|e].
    + by exists child.
    + destruct Hstep as [Hrej _]. congruence.
Qed.

End PointerFacts.

(** ** Method calls on the store *)

Section MonadFacts.
Context {A B : Type}.

Lemma M_bind_Return_inv (c : M A) (k : A → M B) h b h' :
  (c ≫= k) h = (Return b, h') →
  ∃ a h1, c h = (Return a, h1) ∧ k a h1 = (Return b, h').
Proof.
  unfold mbind, M_bind. destruct (c h) as [[a|e] h1]; [eauto|done].
Qed.

Lemma M_bind_Return_eq (c : M A) (k : A → M B) h a h1 :
  c h = (Return a, h1) → (c ≫= k) h = k a h1.
Proof. unfold mbind, M_bind. by intros ->. Qed.

Lemma M_bind_Throw_eq (c : M A) (k : A → M B) h e h1 :
  c h = (Throw e, h1) → (c ≫= k) h = (Throw e, h1).
Proof. unfold mbind, M_bind. by intros ->. Qed.

Lemma reduceRightFrom_app k (f : B → A → nat → M B) l1 l2 init h :
  reduceRightFrom k f (l1 ++ l2) init h =
  (reduceRightFrom (k + length l1) f l2 init ≫= reduceRightFrom k f l1) h.
Proof.
  revert k h. induction l1 as [|x l1 IH]; intros k h.
  - cbn. rewrite Nat.add_0_r. unfold mbind, M_bind.
    by destruct (reduceRightFrom k f l2 init h) as [[?|?] ?].
  - cbn [app reduceRightFrom length]. unfold mbind, M_bind in *.
    rewrite IH. replace (S k + length l1)%nat with (k + S (length l1))%nat by lia.
    by destruct (reduceRightFrom _ f l2 init h) as [[?|?] ?].
Qed.

Lemma reduceRightFrom_ext k (f g : B → A → nat → M B) l init h :
  (∀ acc x i h, (k ≤ i)%nat → f acc x i h = g acc x i h) →
  reduceRightFrom k f l init h = reduceRightFrom k g l init h.
Proof.
  revert k h. induction l as [|x l IH]; intros k h Hfg; [done|].
  cbn [reduceRightFrom]. unfold mbind, M_bind.
  rewrite IH by (intros; apply Hfg; lia).
  destruct (reduceRightFrom (S k) g l init h) as [[acc|e] h1]; [|done].
  by apply Hfg.
Qed.

(** A loop whose steps leave the objects of the store as they are leaves
    them as they are. *)
Lemma reduceRightFrom_unchanged k (f : B → A → nat → M B) l init h :
  (∀ acc x i h, (k ≤ i)%nat → unchanged h (f acc x i h).2) →
  unchanged h (reduceRightFrom k f l init h).2.
Proof.
  revert k h. induction l as [|x l IH]; intros k h Hf; [by intros ??|].
  cbn [reduceRightFrom]. unfold mbind, M_bind.
  specialize (IH (S k) h). 
  destruct (reduceRightFrom (S k) f l init h) as [[acc|e] h1] eqn:E; cbn in IH.
  - intros l0 o Hl. eapply (Hf acc x k h1); [lia|].
    apply IH; [|done]. intros; apply Hf; lia.
  - cbn. apply IH. intros; apply Hf; lia.
Qed.

(** A loop whose steps do not touch the store does not touch it. *)
Lemma reduceRightFrom_same_heap k (f : B → A → nat → M B) l init h :
  (∀ acc x i h, (k ≤ i)%nat → (f acc x i h).2 = h) →
  (reduceRightFrom k f l init h).2 = h.
Proof.
  revert k h. induction l as [|x l IH]; intros k h Hf; [done|].
  cbn [reduceRightFrom]. unfold mbind, M_bind.
  specialize (IH (S k) h).
  destruct (reduceRightFrom (S k) f l init h) as [[acc|e] h1] eqn:E; cbn in IH.
  - assert (h1 = h) as -> by (apply IH; intros; apply Hf; lia).
    apply Hf. lia.
  - cbn. apply IH. intros; apply Hf; lia.
Qed.

End MonadFacts.

Lemma unchanged_refl h : unchanged h h.
Proof. by intros ??. Qed.

Lemma unchanged_trans h1 h2 h3 : unchanged h1 h2 → unchanged h2 h3 → unchanged h1 h3.
Proof. intros H12 H23 l o Hl. by apply H23, H12. Qed.

Lemma fresh_lookup (h : heap) : h !! fresh (dom h) = None.
Proof. apply not_elem_of_dom, is_fresh. Qed.

Lemma fresh_ne (h : heap) l o : h !! l = Some o → fresh (dom h) ≠ l.
Proof. intros Hl Heq. rewrite <- Heq in Hl. by rewrite fresh_lookup in Hl. Qed.

Lemma unchanged_alloc (h : heap) o : unchanged h (<[fresh (dom h) := o]> h).
Proof.
  intros l o' Hl. rewrite lookup_insert_ne; [done|]. by eapply fresh_ne.
Qed.

Lemma getProp_heap obj k h : (getProp obj k h).2 = h.
Proof. unfold getProp. by repeat case_match. Qed.

Lemma getProp_Return_heap obj k h v h' : getProp obj k h = (Return v, h') → h' = h.
Proof. intros E. pose proof (getProp_heap obj k h) as H. by rewrite E in H. Qed.

(** A read of a property looks at one object of the store. *)
Lemma getProp_local obj k h h' :
  (∀ l, obj = VRef l → h !! l = h' !! l) →
  (getProp obj k h).1 = (getProp obj k h').1.
Proof.
  intros Hl. unfold getProp. destruct obj; try done.
  rewrite <- (Hl l eq_refl). by repeat case_match.
Qed.

(** ** Reading *)

Section NavigatorFacts.
Context {PD PC : Type} `{!Schema PD PC}.

Ltac unfold_M := unfold elementValue, alloc, throw, mbind, M_bind, mret, M_ret.

(** Reads of a property leave the store as it is: name the result and
    replace the store after the read by the store before. *)
Ltac name_reads :=
  repeat match goal with
  | |- context [getProp ?obj ?k ?h] =>
      let E := fresh "Eget" in
      let v := fresh "v" in let e := fresh "e" in let h' := fresh "h" in
      pose proof (getProp_heap obj k h) as E;
      destruct (getProp obj k h) as [[v|e] h'];
      cbn [snd] in E; subst h'
  end.

Lemma isRoot_chain (this : RecordElementPointer PD PC) :
  isRoot this = true → pointerChain this = [this].
Proof. unfold isRoot. destruct this as [[q|] ?]; cbn; done. Qed.

Lemma pointerChain_ancestors (this : RecordElementPointer PD PC) :
  pointerChain this = this :: ancestors this.
Proof. by destruct this. Qed.

Lemma isRoot_false_parent (this : RecordElementPointer PD PC) :
  isRoot this = false → ∃ q, _parent this = Some q.
Proof. unfold isRoot. destruct (_parent this); [eauto|done]. Qed.

(** [forSet] matters at index 1 only. *)
Lemma getImmediateValue_forSet (p : RecordElementPointer PD PC) obj i h :
  i ≠ 1%nat →
  _getImmediateValue p obj i true h = _getImmediateValue p obj i false h.
Proof.
  intros Hi. unfold _getImmediateValue.
  destruct i as [|[|i]]; [|done|]; repeat case_match; try done.
Qed.

(** Above index 1 nothing is created. *)
Lemma getImmediateValue_same_heap (p : RecordElementPointer PD PC) obj i fs h :
  (2 ≤ i)%nat → (_getImmediateValue p obj i fs h).2 = h.
Proof.
  intros Hi. unfold _getImmediateValue.
  destruct i as [|[|i]]; [lia|lia|].
  repeat case_match; try done; unfold_M; name_reads; cbn; try done;
    repeat case_match; done.
Qed.

(** At the leaf nothing is created either. *)
Lemma getImmediateValue_leaf_heap (p : RecordElementPointer PD PC) obj fs h :
  (_getImmediateValue p obj 0 fs h).2 = h.
Proof.
  unfold _getImmediateValue.
  repeat case_match; try done; unfold_M; name_reads; cbn; try done;
    repeat case_match; done.
Qed.

(** A read step changes no object of the store. *)
Lemma getImmediateValue_unchanged (p : RecordElementPointer PD PC) obj i h :
  unchanged h (_getImmediateValue p obj i false h).2.
Proof.
  unfold _getImmediateValue.
  repeat case_match; try apply unchanged_refl; unfold_M; name_reads; cbn;
    try apply unchanged_refl;
    repeat case_match; cbn; try apply unchanged_refl; apply unchanged_alloc.
Qed.

(** The leaf step looks at one object of the store. *)
Lemma getImmediateValue_leaf_local (p : RecordElementPointer PD PC) obj fs fs' h h' :
  (∀ l, obj = VRef l → h !! l = h' !! l) →
  (_getImmediateValue p obj 0 fs h).1 = (_getImmediateValue p obj 0 fs' h').1.
Proof.
  intros Hl. unfold _getImmediateValue.
  repeat case_match; try done; unfold_M.
  all: match goal with
       | |- context [getProp ?o ?k ?ha] =>
           match goal with
           | |- context [getProp o k ?hb] =>
               assert_fails (constr_eq ha hb);
               pose proof (getProp_local o k ha hb Hl) as Hloc;
               pose proof (getProp_heap o k ha) as E1;
               pose proof (getProp_heap o k hb) as E2;
               destruct (getProp o k ha) as [[v1|e1] h1];
               destruct (getProp o k hb) as [[v2|e2] h2];
               cbn in Hloc, E1, E2; simplify_eq; cbn; try done
           end
       end.
  all: repeat case_match; done.
Qed.

Lemma getProp_object lo m s h :
  h !! lo = Some (JObject m) →
  getProp (VRef lo) (KString s) h = (Return (member m s), h).
Proof. unfold getProp. by intros ->. Qed.

Lemma member_absent (m : gmap string jsvalue) s :
  m !! s = None → s ∉ objectPrototype → member m s = VUndefined.
Proof.
  intros Hs Hown. unfold member, inherited.
  by rewrite Hs, bool_decide_eq_false_2.
Qed.

Lemma member_inherited (m : gmap string jsvalue) s :
  m !! s = None → s ∈ objectPrototype → member m s = VNative s.
Proof.
  intros Hs Hin. unfold member, inherited.
  by rewrite Hs, bool_decide_eq_true_2.
Qed.

Lemma member_plain (m : gmap string jsvalue) s :
  s ∉ objectPrototype → member m s = default VUndefined (m !! s).
Proof.
  intros Hown. unfold member, inherited. by rewrite bool_decide_eq_false_2.
Qed.

Lemma assigned_plain (m : gmap string jsvalue) s v :
  s ∉ objectPrototype → assigned m s v = Some (<[s := v]> m).
Proof.
  intros Hown. unfold assigned. destruct (m !! s); [done|].
  destruct (String.eqb s "__proto__") eqn:Hp; [|done].
  apply String.eqb_eq in Hp as ->. destruct Hown.
  apply (bool_decide_unpack ("__proto__" ∈ objectPrototype)). by vm_compute.
Qed.

Lemma assigned_other (m : gmap string jsvalue) s v :
  s ≠ "__proto__" → assigned m s v = Some (<[s := v]> m).
Proof.
  intros Hs. unfold assigned. destruct (m !! s); [done|].
  destruct (String.eqb s "__proto__") eqn:Hp; [|done].
  by apply String.eqb_eq in Hp.
Qed.

Lemma member_own (m : gmap string jsvalue) s v :
  m !! s = Some v → member m s = v.
Proof. intros Hs. unfold member. by rewrite Hs. Qed.

(** An assignment under a name whose value reads [null] or [undefined]
    stores an own property. *)
Lemma assigned_nullish (m : gmap string jsvalue) s v :
  isNullish (member m s) = true → assigned m s v = Some (<[s := v]> m).
Proof.
  unfold assigned, member, inherited. destruct (m !! s) as [x|] eqn:Hs; [done|].
  cbn. destruct (String.eqb s "__proto__") eqn:Hp; [|done].
  apply String.eqb_eq in Hp as ->. by vm_compute.
Qed.

Lemma getProp_array la xs n h :
  h !! la = Some (JArray xs) →
  getProp (VRef la) (KNumber n) h =
  (Return (default VUndefined (xs !! N.to_nat n)), h).
Proof. unfold getProp. by intros ->. Qed.

Lemma nullish_normalised v :
  isNullish v = true →
  match v with VUndefined => VNull | _ => v end = VNull.
Proof. by destruct v. Qed.

(** C9. [getValue] changes no object of the store the record lives in,
    whether it returns or throws: the empty container it puts in the place
    of a null value is a new object that no object of the store refers to.
    With a trace callback this holds as long as the callback, which is the
    caller's code, changes no object itself. *)
Theorem getValue_leaves_record (this : RecordElementPointer PD PC) record
    (traceFunc : option traceCallback) h :
  (∀ f, traceFunc = Some f → ∀ p v i h0, unchanged h0 (f p v i h0).2) →
  unchanged h (getValue this record traceFunc h).2.
Proof.
  intros Hf. unfold getValue, reduceRight. destruct traceFunc as [f|].
  - apply reduceRightFrom_unchanged. intros acc p i h0 _.
    unfold getValueTraceStep, mbind, M_bind.
    pose proof (getImmediateValue_unchanged p acc i h0) as H1.
    destruct (_getImmediateValue p acc i false h0) as [[val|e] h1]; [|done].
    pose proof (Hf f eq_refl p val i h1) as H2.
    destruct (f p val i h1) as [[[]|e] h2]; cbn in *; by eapply unchanged_trans.
  - apply reduceRightFrom_unchanged. intros acc p i h0 _.
    apply getImmediateValue_unchanged.
Qed.

(** X23. At the leaf [getValue] returns [null] for an object property that
    reads [null] or [undefined] in its parent object, and [undefined] for an
    array element past the end of its array and for a map element whose key
    the map does not have and that names no member of [Object.prototype]. *)
Theorem getValue_absent_leaf (this : RecordElementPointer PD PC) d record parent h h1 v :
  isRoot this = false → _propDesc this = Some d →
  reduceRightFrom 1 getValueStep (ancestors this) record h = (Return parent, h1) →
  absentLeaf this d parent h1 v →
  getValue this record None h = (Return v, h1).
Proof.
  intros Hroot Hd Hup Habs.
  unfold getValue, reduceRight. rewrite pointerChain_ancestors.
  cbn [reduceRightFrom]. rewrite (M_bind_Return_eq _ _ _ _ _ Hup).
  unfold getValueStep, _getImmediateValue. rewrite Hroot, Hd.
  destruct Habs as [lo m Hce -> Hlo Hnull
                   |la xs n Hce Harr Hidx -> Hla Hx
                   |lm m k Hce Harr Hmap Hidx -> Hlm Hk Hown].
  - rewrite Hce, !andb_false_r. unfold mbind, M_bind.
    rewrite (getProp_object _ _ _ _ Hlo), (nullish_normalised _ Hnull). done.
  - rewrite Hce, Harr, Hidx. cbn. unfold mbind, M_bind.
    rewrite (getProp_array _ _ _ _ Hla), Hx. done.
  - rewrite Hce, Harr, Hmap, Hidx. cbn. unfold mbind, M_bind.
    rewrite (getProp_object _ _ _ _ Hlm), (member_absent _ _ Hk Hown). done.
Qed.

(** C6, where the code departs from it. At the leaf [getValue] does not
    return [undefined] for every map element that is absent from its map:
    for a key that the map does not have and that names a member of
    [Object.prototype], it returns that member, which the map inherits. *)
Theorem getValue_inherited_map_key (this : RecordElementPointer PD PC) d k record
    lm m h h1 :
  isRoot this = false → _propDesc this = Some d →
  _collectionElement this = true → isArray d = false → isMap d = true →
  _collectionElementIndex this = Some (IndexString k) →
  reduceRightFrom 1 getValueStep (ancestors this) record h
    = (Return (VRef lm), h1) →
  h1 !! lm = Some (JObject m) →
  m !! k = None → k ∈ objectPrototype →
  getValue this record None h = (Return (VNative k), h1).
Proof.
  intros Hroot Hd Hce Harr Hmap Hidx Hup Hlm Hk Hin.
  unfold getValue, reduceRight. rewrite pointerChain_ancestors.
  cbn [reduceRightFrom]. rewrite (M_bind_Return_eq _ _ _ _ _ Hup).
  unfold getValueStep, _getImmediateValue.
  rewrite Hroot, Hd, Hce, Harr, Hmap, Hidx. cbn. unfold mbind, M_bind.
  rewrite (getProp_object _ _ _ _ Hlm), (member_inherited _ _ Hk Hin). done.
Qed.

(** The loop over a chain cut at a node [p] that the nodes above have
    brought to the value [obj]. *)
Lemma reduceRight_cut (f : jsvalue → RecordElementPointer PD PC → nat → M jsvalue)
    (below above : list (RecordElementPointer PD PC)) (p : RecordElementPointer PD PC) record obj h h1 :
  reduceRightFrom (S (length below)) f above record h = (Return obj, h1) →
  reduceRight f (below ++ p :: above) record h =
  (f obj p (length below) ≫= reduceRightFrom 0 f below) h1.
Proof.
  intros Hup. unfold reduceRight. rewrite reduceRightFrom_app.
  cbn [reduceRightFrom Nat.add]. unfold mbind, M_bind. by rewrite Hup.
Qed.

(** The step of [_getImmediateValue] at a node for an object property
    whose value is absent or null, above the leaf. *)
Lemma getImmediateValue_null_property (p : RecordElementPointer PD PC) d lo m i forSet h :
  isRoot p = false → _propDesc p = Some d → _collectionElement p = false →
  h !! lo = Some (JObject m) →
  isNullish (member m (name d)) = true →
  _getImmediateValue p (VRef lo) (S i) forSet h =
    let l' := fresh (dom h) in
    let write c :=
      (Return (VRef l'),
       if forSet
       then <[lo := JObject (<[name d := VRef l']> m)]> (<[l' := c]> h)
       else <[l' := c]> h) in
    match i with
    | 0%nat =>
        if isArray d then write (JArray [])
        else if isMap d then write (JObject ∅)
        else (Throw (noValue p), h)
    | _ => (Throw (noValue p), h)
    end.
Proof.
  intros Hroot Hd Hce Hlo Hnull. unfold _getImmediateValue.
  rewrite Hroot, Hd, Hce, !andb_false_r. unfold mbind, M_bind.
  rewrite (getProp_object _ _ _ _ Hlo), (nullish_normalised _ Hnull).
  destruct i as [|i]; [|done]. cbn [Nat.ltb Nat.leb].
  assert (∀ c, (<[fresh (dom h) := c]> h) !! lo = Some (JObject m)) as Hlo'.
  { intros c. rewrite lookup_insert_ne; [done|]. by eapply fresh_ne. }
  destruct (isArray d); [|destruct (isMap d); [|done]];
    destruct forSet; unfold alloc, setProp, mret, M_ret; cbn;
    rewrite ?Hlo', ?(assigned_nullish _ _ _ Hnull); done.
Qed.

(** C2, as the code has it. In [getValue], at the node just above the leaf
    (index 1 of the chain) that addresses an object property whose value is
    absent or null (its parent object gives [undefined] or [null] for it):
    if the property is an array or a map, a new empty
    container is put in its place, without being written into the record,
    and the descent goes on into it; otherwise the call fails with an
    [X2DataError]. At a node further from the leaf the call fails with an
    [X2DataError] whatever the property is. *)
Theorem getValue_null_intermediate (this p : RecordElementPointer PD PC) below above d record
    lo m h h1 :
  pointerChain this = below ++ p :: above → below ≠ [] →
  isRoot p = false → _propDesc p = Some d → _collectionElement p = false →
  reduceRightFrom (S (length below)) getValueStep above record h
    = (Return (VRef lo), h1) →
  h1 !! lo = Some (JObject m) →
  isNullish (member m (name d)) = true →
  getValue this record None h =
    let l' := fresh (dom h1) in
    if decide (length below = 1%nat) then
      if isArray d then
        reduceRightFrom 0 getValueStep below (VRef l') (<[l' := JArray []]> h1)
      else if isMap d then
        reduceRightFrom 0 getValueStep below (VRef l') (<[l' := JObject ∅]> h1)
      else (Throw (X2DataError (NoPropertyValue (toString p))), h1)
    else (Throw (X2DataError (NoPropertyValue (toString p))), h1).
Proof.
  intros Hchain Hbelow Hroot Hd Hce Hup Hlo Hnull.
  unfold getValue. rewrite Hchain, (reduceRight_cut _ _ _ _ _ _ _ _ Hup).
  destruct below as [|b0 below]; [done|]. cbn [length].
  unfold mbind, M_bind.
  change (getValueStep (VRef lo) p (S (length below)) h1)
    with (_getImmediateValue p (VRef lo) (S (length below)) false h1).
  rewrite (getImmediateValue_null_property _ _ _ _ _ _ _ Hroot Hd Hce Hlo Hnull).
  cbn zeta. destruct below as [|b1 below]; cbn [length].
  - rewrite decide_True by done.
    destruct (isArray d); [done|]. by destruct (isMap d).
  - by rewrite decide_False by done.
Qed.

Lemma chain_not_root (this p : RecordElementPointer PD PC) below above :
  pointerChain this = below ++ p :: above → below ≠ [] → isRoot this = false.
Proof.
  intros Hchain Hbelow. destruct (isRoot this) eqn:Hr; [|done].
  rewrite (isRoot_chain _ Hr) in Hchain.
  destruct below as [|? [|? ?]]; done.
Qed.

Lemma run_loop op (this : RecordElementPointer PD PC) record h :
  valueAccepted op this → isRoot this = false →
  run op this record h = reduceRight (stepOf op) (pointerChain this) record h.
Proof.
  intros Hv Hr. destruct op as [v|v|]; cbn in *.
  - unfold addValue, _setValue. by rewrite Hv.
  - unfold replaceValue, _setValue. by rewrite Hv.
  - unfold removeValue. by rewrite Hr.
Qed.

(** C1, as the code has it. In [addValue] and [replaceValue], at the node
    just above the leaf (index 1 of the chain) that addresses an object
    property whose value is absent or null (its parent object gives
    [undefined] or [null] for it) and which is an array or a map,
    a new empty container is created and written into the parent object,
    and the leaf step is made on it. [removeValue] makes its leaf step on
    a new empty container that it does not write into the record. At a
    node further from the leaf the three operations fail with an
    [X2DataError]. *)
Theorem write_null_intermediate op (this p : RecordElementPointer PD PC) below above d record
    lo m h h1 :
  valueAccepted op this →
  pointerChain this = below ++ p :: above → below ≠ [] →
  isRoot p = false → _propDesc p = Some d → _collectionElement p = false →
  isArray d || isMap d = true →
  reduceRightFrom (S (length below)) (stepOf op) above record h
    = (Return (VRef lo), h1) →
  h1 !! lo = Some (JObject m) →
  isNullish (member m (name d)) = true →
  run op this record h =
    let l' := fresh (dom h1) in
    let container := if isArray d then JArray [] else JObject ∅ in
    if decide (length below = 1%nat) then
      reduceRightFrom 0 (stepOf op) below (VRef l')
        match op with
        | OpAdd _ | OpReplace _ =>
            <[lo := JObject (<[name d := VRef l']> m)]> (<[l' := container]> h1)
        | OpRemove => <[l' := container]> h1
        end
    else (Throw (X2DataError (NoPropertyValue (toString p))), h1).
Proof.
  intros Hv Hchain Hbelow Hroot Hd Hce Hkind Hup Hlo Hnull.
  rewrite run_loop by eauto using chain_not_root.
  rewrite Hchain, (reduceRight_cut _ _ _ _ _ _ _ _ Hup).
  destruct below as [|b0 below]; [done|]. cbn [length].
  unfold mbind at 1, M_bind at 1.
  assert (∀ forSet (g : nat → M ()),
    (_getImmediateValue p (VRef lo) (S (length below)) forSet ≫= λ c,
       (if (S (length below) =? 0)%nat then g 0%nat else mret ()) ≫= λ _, mret c) h1
    = _getImmediateValue p (VRef lo) (S (length below)) forSet h1) as Hstep.
  { intros forSet g. cbn [Nat.eqb]. unfold mbind, M_bind, mret, M_ret.
    by destruct (_getImmediateValue _ _ _ _ _) as [[?|?] ?]. }
  assert (stepOf op (VRef lo) p (S (length below)) h1
    = _getImmediateValue p (VRef lo) (S (length below))
        (match op with OpRemove => false | _ => true end) h1) as Hop.
  { destruct op as [v|v|]; cbn [stepOf];
      unfold setValueStep, removeValueStep.
    - apply (Hstep true (λ _, setLeaf v true (VRef lo) p)).
    - apply (Hstep true (λ _, setLeaf v false (VRef lo) p)).
    - apply (Hstep false (λ _, removeLeaf (VRef lo) p)). }
  rewrite Hop.
  rewrite (getImmediateValue_null_property _ _ _ _ _ _ _ Hroot Hd Hce Hlo Hnull).
  cbn zeta. destruct below as [|b1 below]; cbn [length].
  - rewrite decide_True by done.
    destruct (isArray d); [by destruct op|].
    cbn in Hkind. rewrite Hkind. by destruct op.
  - by rewrite decide_False by done.
Qed.

Lemma chain_two (this q : RecordElementPointer PD PC) :
  _parent this = Some q → pointerChain this = this :: q :: ancestors q.
Proof.
  intros Hq. rewrite pointerChain_ancestors. unfold ancestors at 1.
  by rewrite Hq, (pointerChain_ancestors q).
Qed.

(** Above the leaf the callback of an operation is the read step. *)
Lemma stepOf_above op obj (p : RecordElementPointer PD PC) i h :
  stepOf op obj p (S i) h = _getImmediateValue p obj (S i) (forSetOf op) h.
Proof.
  destruct op as [v|v|]; cbn [stepOf forSetOf];
    unfold setValueStep, removeValueStep; cbn [Nat.eqb];
    unfold mbind, M_bind, mret, M_ret;
    by destruct (_getImmediateValue _ _ _ _ _) as [[?|?] ?].
Qed.

(** At the leaf the callback returns what the read step returns. *)
Lemma stepOf_leaf_Return op obj (p : RecordElementPointer PD PC) h c h' :
  stepOf op obj p 0 h = (Return c, h') →
  (_getImmediateValue p obj 0 (forSetOf op) h).1 = Return c.
Proof.
  destruct op as [v|v|]; cbn [stepOf forSetOf];
    unfold setValueStep, removeValueStep; cbn [Nat.eqb];
    unfold mbind, M_bind, mret, M_ret;
    destruct (_getImmediateValue _ _ _ _ _) as [[c0|?] h0]; try done;
    cbn; repeat case_match; intros; by simplify_eq.
Qed.

(** At index 1, reading for a write returns what reading returns, and the
    object returned is the same in both stores. *)
Lemma getImmediateValue_forSet_1 (p : RecordElementPointer PD PC) obj h v hs :
  _getImmediateValue p obj 1 true h = (Return v, hs) →
  ∃ hg, _getImmediateValue p obj 1 false h = (Return v, hg) ∧
        ∀ l, v = VRef l → hs !! l = hg !! l.
Proof.
  unfold _getImmediateValue.
  assert (∀ c : M jsvalue, c h = (Return v, hs) →
    ∃ hg, c h = (Return v, hg) ∧ ∀ l, v = VRef l → hs !! l = hg !! l) as Hsame
    by (intros c Hc; by exists hs).
  destruct (isRoot p); [by apply Hsame|].
  destruct (_propDesc p) as [d|]; [|done].
  destruct (isArray d && _collectionElement p); [by apply Hsame|].
  destruct (isMap d && _collectionElement p); [by apply Hsame|].
  pose proof (getProp_heap obj (KString (name d)) h) as Hh.
  destruct (getProp obj (KString (name d)) h) as [[v0|e] h0] eqn:Hget;
    cbn in Hh; subst h0.
  2: { by rewrite (M_bind_Throw_eq _ _ _ _ _ Hget). }
  rewrite !(M_bind_Return_eq _ _ _ _ _ Hget).
  destruct (match v0 with VUndefined => VNull | _ => v0 end) eqn:Hv0;
    try (by apply (Hsame (mret _))).
  cbn [Nat.ltb Nat.leb].
  assert (∀ c w hs',
    (alloc c ≫= λ val, setProp obj (KString (name d)) val ≫= λ _, mret val) h
      = (Return w, hs') →
    ∃ hg, (alloc c ≫= λ val, mret () ≫= λ _, mret val) h = (Return w, hg) ∧
          ∀ l, w = VRef l → hs' !! l = hg !! l) as Hwrite.
  { intros c w hs'. unfold alloc, mbind, M_bind, mret, M_ret, setProp.
    unfold getProp in Hget. destruct obj as [| | | | |lo|]; try done.
    destruct (h !! lo) as [o|] eqn:Hlo; [|done].
    rewrite lookup_insert_ne by (by eapply fresh_ne).
    rewrite Hlo. destruct o as [xs|m]; [done|].
    injection Hget as Hm.
    rewrite assigned_nullish by (rewrite Hm; by destruct v0).
    intros [= <- <-]. eexists; split; [done|].
    intros l [= <-]. rewrite lookup_insert_ne by (by eapply not_eq_sym, fresh_ne).
    done. }
  destruct (isArray d); [apply Hwrite|].
  destruct (isMap d); [apply Hwrite|done].
Qed.

Lemma run_Return op (this : RecordElementPointer PD PC) record h c h' :
  run op this record h = (Return c, h') →
  valueAccepted op this ∧ isRoot this = false.
Proof.
  destruct op as [v|v|]; cbn [run valueAccepted];
    unfold addValue, replaceValue, _setValue, removeValue, checkValue, throw.
  1,2: destruct (isRoot this); [done|]; by repeat case_match.
  destruct (isRoot this); done.
Qed.

(** C3. When [addValue], [replaceValue] or [removeValue] returns, it
    returns the value [getValue] returns for the same pointer on the record
    as it is before the call. *)
Theorem write_returns_previous_value op (this : RecordElementPointer PD PC) record h c h' :
  run op this record h = (Return c, h') →
  (getValue this record None h).1 = Return c.
Proof.
  intros Hrun. destruct (run_Return _ _ _ _ _ _ Hrun) as [Hv Hroot].
  rewrite run_loop in Hrun by done.
  unfold getValue, reduceRight in *.
  destruct (isRoot_false_parent _ Hroot) as [q Hq].
  rewrite (chain_two _ _ Hq) in *.
  cbn [reduceRightFrom] in *.
  apply M_bind_Return_inv in Hrun as (obj & h1 & Hrun & Hleaf).
  apply M_bind_Return_inv in Hrun as (obj2 & h2 & Hup & Hq1).
  rewrite (reduceRightFrom_ext 2 _ getValueStep) in Hup; last first.
  { intros acc x i h0 Hi. destruct i as [|[|i]]; [lia|lia|].
    rewrite stepOf_above. destruct op; cbn [forSetOf]; try done;
      by apply getImmediateValue_forSet. }
  unfold mbind, M_bind. rewrite Hup.
  rewrite stepOf_above in Hq1.
  assert (∃ hg, getValueStep obj2 q 1 h2 = (Return obj, hg) ∧
                ∀ l, obj = VRef l → h1 !! l = hg !! l) as (hg & Hg & Hsame).
  { destruct op; cbn [forSetOf] in Hq1;
      eauto using getImmediateValue_forSet_1. }
  rewrite Hg. apply stepOf_leaf_Return in Hleaf. rewrite <- Hleaf.
  symmetry. by apply getImmediateValue_leaf_local.
Qed.

Lemma arrayLength_array la xs h :
  h !! la = Some (JArray xs) → arrayLength (VRef la) h = (Return (length xs), h).
Proof. unfold arrayLength. by intros ->. Qed.

(** C8. When the leaf of [addValue], [replaceValue] or [removeValue] is
    an array element with a number for index, and the index is at or past
    the length the array has when the leaf is reached, the operation fails
    with an [X2DataError] (the index is out of bounds). For [addValue] and
    [replaceValue] the value is one that passes the tests made first. *)
Theorem leaf_index_out_of_bounds op (this : RecordElementPointer PD PC) d n record la xs h h1 :
  valueAccepted op this →
  isRoot this = false → _propDesc this = Some d →
  _collectionElement this = true → isArray d = true →
  _collectionElementIndex this = Some (IndexNumber n) →
  reduceRightFrom 1 (stepOf op) (ancestors this) record h
    = (Return (VRef la), h1) →
  h1 !! la = Some (JArray xs) →
  (length xs ≤ N.to_nat n)%nat →
  run op this record h = (Throw (X2DataError IndexOutOfBounds), h1).
Proof.
  intros Hv Hroot Hd Hce Harr Hidx Hup Hla Hlen.
  rewrite run_loop by done. unfold reduceRight.
  rewrite pointerChain_ancestors. cbn [reduceRightFrom].
  rewrite (M_bind_Return_eq _ _ _ _ _ Hup).
  assert (∀ fs, _getImmediateValue this (VRef la) 0 fs h1
                = (Return (default VUndefined (xs !! N.to_nat n)), h1)) as Hread.
  { intros fs. unfold _getImmediateValue. rewrite Hroot, Hd, Hce, Harr, Hidx.
    cbn. unfold mbind, M_bind. rewrite (getProp_array _ _ _ _ Hla).
    unfold elementValue. by rewrite andb_false_r. }
  assert ((n <? N.of_nat (length xs))%N = false) as Hlt by (apply N.ltb_ge; lia).
  destruct op as [v|v|]; cbn [stepOf]; unfold setValueStep, removeValueStep.
  all: unfold mbind at 1, M_bind at 1; rewrite Hread; cbn [Nat.eqb].
  all: unfold setLeaf, removeLeaf; rewrite Hd, Hce, Harr, Hidx; cbn.
  all: unfold mbind, M_bind; rewrite (arrayLength_array _ _ _ Hla), Hlt; done.
Qed.

(** C10, as the code has it. [removeValue] on a map element whose key
    names no member of [Object.prototype], when the nodes above lead to the
    object that is to hold the map and the map is absent from that object,
    or null in it, throws nothing and returns [undefined]; the store it
    leaves is the store before the call and one new empty object, which no
    object of the record refers to: every object of the record is as it
    was. *)
Theorem removeValue_absent_map (this q : RecordElementPointer PD PC) d k record lo m h h1 :
  _parent this = Some q → _propDesc this = Some d →
  _collectionElement this = true →
  _collectionElementIndex this = Some (IndexString k) →
  isRoot q = false → _propDesc q = Some d → _collectionElement q = false →
  isArray d = false → isMap d = true →
  reduceRightFrom 2 removeValueStep (ancestors q) record h
    = (Return (VRef lo), h1) →
  h1 !! lo = Some (JObject m) →
  isNullish (member m (name d)) = true →
  k ∉ objectPrototype →
  removeValue this record h
    = (Return VUndefined, <[fresh (dom h) := JObject ∅]> h) ∧
  unchanged h (removeValue this record h).2.
Proof.
  intros Hq Hd Hce Hidx Hqroot Hqd Hqce Harr Hmap Hup Hlo Hnull Hown.
  assert (h1 = h) as ->.
  { pose proof (reduceRightFrom_same_heap 2 removeValueStep (ancestors q) record h) as Hs.
    rewrite Hup in Hs. apply Hs. intros acc x i h0 Hi.
    destruct i as [|[|i]]; [lia|lia|].
    change (removeValueStep acc x (S (S i)) h0)
      with (stepOf OpRemove acc x (S (S i)) h0).
    rewrite stepOf_above. apply getImmediateValue_same_heap; lia. }
  assert (removeValue this record h
          = (Return VUndefined, <[fresh (dom h) := JObject ∅]> h)) as Hrun.
  { assert (isRoot this = false) as Hroot by (unfold isRoot; by rewrite Hq).
    unfold removeValue, reduceRight. rewrite Hroot.
    rewrite (chain_two _ _ Hq). cbn [reduceRightFrom].
    unfold mbind at 1 2, M_bind at 1 2. rewrite Hup.
    change (removeValueStep (VRef lo) q 1 h)
      with (stepOf OpRemove (VRef lo) q 1 h).
    rewrite stepOf_above. cbn [forSetOf].
    rewrite (getImmediateValue_null_property _ _ _ _ _ _ _ Hqroot Hqd Hqce Hlo Hnull).
    cbn zeta. rewrite Harr, Hmap.
    set (l' := fresh (dom h)).
    unfold removeValueStep, _getImmediateValue, removeLeaf.
    rewrite Hroot, Hd, Hce, Hidx, Harr, Hmap. cbn.
    unfold mbind, M_bind, getProp, deleteProp, elementValue, mret, M_ret.
    rewrite !lookup_insert_eq. cbn.
    rewrite (member_absent _ _ (lookup_empty k) Hown). cbn.
    rewrite lookup_insert_eq, insert_insert_eq, delete_empty. done. }
  split; [done|]. rewrite Hrun. apply unchanged_alloc.
Qed.

End NavigatorFacts.

(** ** The properties on the sample record type *)

Import Sample.

(** Whether a name is one of the members of [Object.prototype]. *)
Ltac decide_name :=
  match goal with
  | |- ?x ∉ ?l => apply (bool_decide_eq_false_1 (x ∈ l)); by vm_compute
  | |- ?x ∈ ?l => apply (bool_decide_unpack (x ∈ l)); by vm_compute
  end.

Example parse_root :
  (parse Order "" false ≫= λ p, Return (isRoot p, toString p)) = Return (true, "").
Proof. reflexivity. Qed.

Example parse_needs_slash :
  parse Order "items" false = Throw (X2SyntaxError InvalidTypeOrSyntax "items").
Proof. reflexivity. Qed.

Example parse_polymorphic :
  (parse Order "/lastEvent/eventType" false ≫= λ p, Return (_propPath p))
    = Return "lastEvent.eventType" ∧
  (parse Order "/lastEvent/OPENED:byWho" false ≫= λ p, Return (_propPath p))
    = Return "lastEvent.OPENED.byWho" ∧
  parse Order "/lastEvent/OPENED:missing" false
    = Throw (X2SyntaxError NoSuchProperty "/lastEvent/OPENED:missing").
Proof. by vm_compute. Qed.

Example getValue_quantity :
  getValue (pointer "/items/0/quantity") record None order = (Return (VNumber 2), order).
Proof. by vm_compute. Qed.

Example addValue_dash_appends :
  (addValue (pointer "/items/-") record (VNumber 5) order).2 !! 2%positive
    = Some (JArray [VRef 3%positive; VNumber 5]).
Proof. by vm_compute. Qed.

Example addValue_index_inserts :
  (addValue (pointer "/items/0") record (VNumber 5) order).2 !! 2%positive
    = Some (JArray [VNumber 5; VRef 3%positive]).
Proof. by vm_compute. Qed.

Example replaceValue_index_overwrites :
  replaceValue (pointer "/items/0") record (VNumber 5) order
    = (Return (VRef 3%positive), <[2%positive := JArray [VNumber 5]]> order).
Proof. by vm_compute. Qed.

Example removeValue_index_shifts :
  removeValue (pointer "/items/0") record order
    = (Return (VRef 3%positive), <[2%positive := JArray []]> order).
Proof. by vm_compute. Qed.

Example dash_leaf_usage_errors :
  replaceValue (pointer "/items/-") record (VNumber 5) order
    = (Throw (X2UsageError ReplaceDashIndex), order) ∧
  removeValue (pointer "/items/-") record order
    = (Throw (X2UsageError DeleteDashIndex), order).
Proof. by vm_compute. Qed.

Example root_usage_errors :
  addValue (pointer "") record (VNumber 5) order
    = (Throw (X2UsageError ReplaceWholeRecord), order) ∧
  removeValue (pointer "") record order
    = (Throw (X2UsageError DeleteWholeRecord), order).
Proof. by vm_compute. Qed.

(** A value that is refused is refused before the record is looked at. *)
Example undefined_value_refused_first :
  addValue (pointer "/items/5") record VUndefined order
    = (Throw (X2UsageError UndefinedValue), order).
Proof. by vm_compute. Qed.

(** A write that fails at the leaf has already written the container it
    created above the leaf. *)
Example addValue_index_on_absent_array :
  addValue (pointer "/items/0") record (VNumber 5) emptyOrder
    = (Throw (X2DataError IndexOutOfBounds),
       <[1%positive := JObject {[ "items" := VRef 2%positive ]}]>
         (<[2%positive := JArray []]> emptyOrder)).
Proof. by vm_compute. Qed.

(** Without the hypothesis on tildes the round trip is lost: [parse] takes a
    lone tilde as a map key and [toString] prints it escaped. *)
Example parse_lone_tilde :
  Text.wellEscaped "/tags/~" = false ∧
  (parse Order "/tags/~" false ≫= λ p, Return (toString p)) = Return "/tags/~0".
Proof. by vm_compute. Qed.

Lemma parse_toString_roundtrip_witness :
  Text.wellEscaped "/tags/a~1b~0c" = true ∧
  parse Order "/tags/a~1b~0c" false = Return (pointer "/tags/a~1b~0c") ∧
  toString (pointer "/tags/a~1b~0c") = "/tags/a~1b~0c".
Proof.
  split; [reflexivity|]. split; [reflexivity|].
  apply (parse_toString_roundtrip Order "/tags/a~1b~0c" false); reflexivity.
Defined.

Lemma createChildPointer_parse_witness :
  validPointer Order (pointer "/tags") ∧
  agree (createChildPointer (pointer "/tags") "a/b")
        (parse Order (toString (pointer "/tags") +:+ "/" +:+ Text.escape "a/b") false).
Proof.
  assert (validPointer Order (pointer "/tags")) as Hv
    by (apply (parse_valid Order "/tags" false); reflexivity).
  split; [exact Hv|].
  apply (createChildPointer_parse Order (pointer "/tags") "a/b" Hv).
Defined.

Lemma array_element_token_witness :
  isRoot (pointer "/items") = false ∧
  _propDesc (pointer "/items") = Some P_items ∧
  _collectionElement (pointer "/items") = false ∧
  isArray P_items = true ∧
  (∀ t, match createChildPointer (pointer "/items") t with
        | Return _ => t = "-" ∨ Text.isArrayIndex t = true
        | Throw e => t ≠ "-" ∧ Text.isArrayIndex t = false ∧ isSyntaxError e = true
        end).
Proof.
  repeat (split; [reflexivity|]).
  apply (array_element_token (pointer "/items") P_items); reflexivity.
Defined.

(** C2 as stated fails: in [getValue] for [/items/0/quantity] on the record
    [{}] the node [/items] is two steps above the leaf, its property is an
    array and its value is absent; no empty array is put in its place, the
    call fails at that node. *)
Lemma getValue_fails_above_parent :
  isArray P_items = true ∧
  emptyOrder !! 1%positive = Some (JObject ∅) ∧
  pointerChain (pointer "/items/0/quantity")
    = [pointer "/items/0/quantity"; pointer "/items/0"; pointer "/items"; pointer ""] ∧
  _getImmediateValue (pointer "/items") record 2 false emptyOrder
    = (Throw (X2DataError (NoPropertyValue "/items")), emptyOrder) ∧
  getValue (pointer "/items/0/quantity") record None emptyOrder
    = (Throw (X2DataError (NoPropertyValue "/items")), emptyOrder).
Proof. repeat split; by vm_compute. Qed.

Lemma getValue_null_intermediate_witness :
  getValue (pointer "/items/0") record None emptyOrder =
  reduceRightFrom 0 getValueStep [pointer "/items/0"] (VRef (fresh (dom emptyOrder)))
    (<[fresh (dom emptyOrder) := JArray []]> emptyOrder).
Proof.
  etrans.
  - apply (getValue_null_intermediate (pointer "/items/0") (pointer "/items")
             [pointer "/items/0"] [pointer ""] P_items record 1%positive ∅
             emptyOrder emptyOrder); by vm_compute.
  - reflexivity.
Defined.

(** C1 as stated fails: [removeValue] for [/tags/k] on the record [{}] meets
    the map [tags] absent just above the leaf and writes no empty map into
    the record; [addValue] for [/items/0/quantity] on [{}] meets the array
    [items] absent two steps above the leaf, creates nothing and fails. *)
Lemma write_back_not_always :
  isMap P_tags = true ∧ isArray P_items = true ∧
  emptyOrder !! 1%positive = Some (JObject ∅) ∧
  (removeValue (pointer "/tags/k") record emptyOrder).1 = Return VUndefined ∧
  (removeValue (pointer "/tags/k") record emptyOrder).2 !! 1%positive
    = Some (JObject ∅) ∧
  addValue (pointer "/items/0/quantity") record (VNumber 1) emptyOrder
    = (Throw (X2DataError (NoPropertyValue "/items")), emptyOrder).
Proof. repeat split; by vm_compute. Qed.

Lemma write_null_intermediate_witness :
  run (OpAdd (VNumber 5)) (pointer "/items/-") record emptyOrder =
  reduceRightFrom 0 (stepOf (OpAdd (VNumber 5))) [pointer "/items/-"]
    (VRef (fresh (dom emptyOrder)))
    (<[1%positive := JObject (<["items" := VRef (fresh (dom emptyOrder))]> ∅)]>
       (<[fresh (dom emptyOrder) := JArray []]> emptyOrder)).
Proof.
  etrans.
  - apply (write_null_intermediate (OpAdd (VNumber 5)) (pointer "/items/-")
             (pointer "/items") [pointer "/items/-"] [pointer ""] P_items record
             1%positive ∅ emptyOrder emptyOrder); by vm_compute.
  - reflexivity.
Defined.

Lemma write_returns_previous_value_witness :
  run (OpReplace (VNumber 7)) (pointer "/items/0/quantity") record order
    = (Return (VNumber 2),
       (run (OpReplace (VNumber 7)) (pointer "/items/0/quantity") record order).2) ∧
  (getValue (pointer "/items/0/quantity") record None order).1 = Return (VNumber 2).
Proof.
  assert (run (OpReplace (VNumber 7)) (pointer "/items/0/quantity") record order
    = (Return (VNumber 2),
       (run (OpReplace (VNumber 7)) (pointer "/items/0/quantity") record order).2))
    as Hrun by (by vm_compute).
  split; [exact Hrun|].
  exact (write_returns_previous_value _ _ _ _ _ _ Hrun).
Defined.

Lemma getValue_absent_leaf_witness :
  getValue (pointer "/id") record None emptyOrder = (Return VNull, emptyOrder) ∧
  getValue (pointer "/items/0") record None order2 = (Return VUndefined, order2) ∧
  getValue (pointer "/tags/b") record None order2 = (Return VUndefined, order2).
Proof.
  split; [|split].
  - apply (getValue_absent_leaf (pointer "/id") P_id record record emptyOrder);
      [reflexivity|reflexivity|by vm_compute|].
    by apply (absent_property _ _ _ _ 1%positive ∅).
  - apply (getValue_absent_leaf (pointer "/items/0") P_items record (VRef 2%positive) order2);
      [reflexivity|reflexivity|by vm_compute|].
    by apply (absent_array_element _ _ _ _ 2%positive [] 0%N).
  - apply (getValue_absent_leaf (pointer "/tags/b") P_tags record (VRef 3%positive) order2);
      [reflexivity|reflexivity|by vm_compute|].
    apply (absent_map_element _ _ _ _ 3%positive {["a" := VString "x"]} "b");
      first [done | decide_name].
Defined.

Lemma getValue_inherited_map_key_witness :
  getValue (pointer "/tags/constructor") record None order2
    = (Return (VNative "constructor"), order2).
Proof.
  apply (getValue_inherited_map_key (pointer "/tags/constructor") P_tags
           "constructor" record 3%positive {["a" := VString "x"]} order2);
    first [by vm_compute | decide_name].
Defined.

Lemma leaf_index_out_of_bounds_witness :
  run (OpAdd (VNumber 1)) (pointer "/items/0") record order2
    = (Throw (X2DataError IndexOutOfBounds), order2) ∧
  run (OpReplace (VNumber 1)) (pointer "/items/3") record order
    = (Throw (X2DataError IndexOutOfBounds), order) ∧
  run OpRemove (pointer "/items/1") record order
    = (Throw (X2DataError IndexOutOfBounds), order).
Proof.
  split; [|split].
  - apply (leaf_index_out_of_bounds (OpAdd (VNumber 1)) (pointer "/items/0")
             P_items 0%N record 2%positive []); by vm_compute.
  - apply (leaf_index_out_of_bounds (OpReplace (VNumber 1)) (pointer "/items/3")
             P_items 3%N record 2%positive [VRef 3%positive]);
      first [by vm_compute | cbn; lia].
  - apply (leaf_index_out_of_bounds OpRemove (pointer "/items/1")
             P_items 1%N record 2%positive [VRef 3%positive]);
      first [by vm_compute | cbn; lia].
Defined.

Lemma getValue_leaves_record_witness :
  unchanged emptyOrder
    (getValue (pointer "/items/0") record (Some noTrace) emptyOrder).2.
Proof.
  apply (getValue_leaves_record (pointer "/items/0") record (Some noTrace) emptyOrder).
  intros f [= <-] p v i h0. apply unchanged_refl.
Defined.

Lemma removeValue_absent_map_witness :
  removeValue (pointer "/tags/k") record emptyOrder
    = (Return VUndefined, <[fresh (dom emptyOrder) := JObject ∅]> emptyOrder) ∧
  unchanged emptyOrder (removeValue (pointer "/tags/k") record emptyOrder).2.
Proof.
  apply (removeValue_absent_map (pointer "/tags/k") (pointer "/tags") P_tags "k"
           record 1%positive ∅ emptyOrder emptyOrder);
    first [by vm_compute | decide_name].
Defined.

(** C10 as stated fails: in the record [{items: [], ...}] the map [notes] of
    the item [/items/0] is absent, as the item itself is; [removeValue] for
    [/items/0/notes/k] does not return, it fails at the node [/items/0]. And
    [removeValue] for [/tags/constructor] on the record [{}], where the map
    [tags] is absent, returns not [undefined] but the member of
    [Object.prototype] that the new empty map inherits under that key. *)
Lemma removeValue_absent_map_fails :
  isMap P_notes = true ∧ isMap P_tags = true ∧
  order2 !! 2%positive = Some (JArray []) ∧
  emptyOrder !! 1%positive = Some (JObject ∅) ∧
  _collectionElementIndex (pointer "/items/0/notes/k") = Some (IndexString "k") ∧
  removeValue (pointer "/items/0/notes/k") record order2
    = (Throw (X2DataError (NoPropertyValue "/items/0")), order2) ∧
  _collectionElementIndex (pointer "/tags/constructor")
    = Some (IndexString "constructor") ∧
  (removeValue (pointer "/tags/constructor") record emptyOrder).1
    = Return (VNative "constructor").
Proof. repeat split; by vm_compute. Qed.

(** * More properties of the code *)

(** ** Prefixes of strings *)

Module PrefixFacts.
Import Text TextFacts.

Lemma startsWith_app s p : startsWith s p = true ↔ ∃ r, s = p +:+ r.
Proof.
  revert s. induction p as [|c p IH]; intros s.
  - split; [intros _; by exists s|done].
  - destruct s as [|d s]; cbn [startsWith].
    + split; [done|]. intros [r Hr]. by rewrite string_app_cons in Hr.
    + rewrite andb_true_iff, IH. split.
      * intros [Hc [r ->]]. apply Ascii.eqb_eq in Hc as ->. by exists r.
      * intros [r Hr]. rewrite string_app_cons in Hr. injection Hr as -> ->.
        split; [apply Ascii.eqb_refl|by exists r].
Qed.

Lemma string_app_length (a b : string) :
  String.length (a +:+ b) = (String.length a + String.length b)%nat.
Proof.
  induction a as [|c a IH]; [done|]. rewrite string_app_cons. cbn. by rewrite IH.
Qed.

Lemma startsWith_self_slash s : startsWith s (s +:+ "/") = false.
Proof.
  destruct (startsWith s (s +:+ "/")) eqn:E; [|done].
  apply startsWith_app in E as [r Hr].
  apply (f_equal String.length) in Hr. rewrite !string_app_length in Hr.
  cbn in Hr. lia.
Qed.

Lemma startsWith_trans a b c :
  startsWith a (b +:+ "/") = true → startsWith b (c +:+ "/") = true →
  startsWith a (c +:+ "/") = true.
Proof.
  intros [r ->]%startsWith_app [r' ->]%startsWith_app.
  apply startsWith_app. exists (r' +:+ "/" +:+ r).
  by rewrite !string_app_assoc.
Qed.

(** A string without a slash has no prefix that ends with a slash. *)
Lemma startsWith_noSlash e p :
  noSlash e = true → startsWith e (p +:+ "/") = false.
Proof.
  revert e. induction p as [|c p IH]; intros e He.
  - rewrite string_app_nil_l. destruct e as [|d e]; [done|].
    cbn [noSlash] in He. cbn [startsWith].
    apply andb_prop in He as [Hd _]. apply negb_true_iff in Hd.
    by rewrite Ascii.eqb_sym, Hd.
  - rewrite string_app_cons. destruct e as [|d e]; [done|].
    cbn [noSlash] in He. cbn [startsWith].
    apply andb_prop in He as [_ He]. by rewrite IH, andb_false_r.
Qed.

(** The prefixes ending with a slash of a string followed by a slash and a
    token without a slash. *)
Lemma startsWith_extended x e p :
  noSlash e = true →
  startsWith (x +:+ "/" +:+ e) (p +:+ "/") = true ↔
  p = x ∨ startsWith x (p +:+ "/") = true.
Proof.
  intros He. revert p. induction x as [|c x IH]; intros p.
  - rewrite string_app_nil_l. destruct p as [|d p].
    + rewrite string_app_nil_l. cbn. split; [by left|done].
    + rewrite !string_app_cons. cbn [startsWith].
      rewrite startsWith_noSlash, andb_false_r by done. split; [done|].
      intros [?|?]; done.
  - rewrite string_app_cons. destruct p as [|d p].
    + rewrite string_app_nil_l. cbn. split; [by right|]. intros [?|?]; done.
    + rewrite !string_app_cons. cbn [startsWith].
      rewrite !andb_true_iff, IH. split.
      * intros [Hc [->|Hp]]; apply Ascii.eqb_eq in Hc as ->; [by left|].
        right. split; [apply Ascii.eqb_refl|done].
      * intros [[= -> ->]|[Hc Hp]]; (split; [|by eauto]);
          [apply Ascii.eqb_refl|done].
Qed.

Lemma wellEscaped_app_two a b :
  wellEscaped b = true →
  (wellEscaped a = true → wellEscaped (a +:+ b) = true) ∧
  (∀ c, wellEscaped (String c a) = true → wellEscaped (String c a +:+ b) = true).
Proof.
  intros Hb. induction a as [|d a [IH1 IH2]].
  - split; [done|]. intros c. rewrite string_app_cons, string_app_nil_l.
    cbn [wellEscaped]. by destruct (Ascii.eqb c "~"%char).
  - split; [apply IH2|]. intros c. rewrite !string_app_cons.
    cbn [wellEscaped]. destruct (Ascii.eqb c "~"%char).
    + intros [Hd Ha]%andb_prop. rewrite Hd. by apply IH1.
    + intros Ha. exact (IH2 d Ha).
Qed.

Lemma wellEscaped_app a b :
  wellEscaped a = true → wellEscaped b = true → wellEscaped (a +:+ b) = true.
Proof. intros Ha Hb. by apply (wellEscaped_app_two a b Hb). Qed.

Lemma wellEscaped_escape t : wellEscaped (escape t) = true.
Proof.
  induction t as [|c t IH]; [done|]. cbn [escape].
  destruct (Ascii.eqb c "~"%char) eqn:Hc; [by cbn; rewrite IH|].
  destruct (Ascii.eqb c "/"%char); [by cbn; rewrite IH|].
  cbn [wellEscaped]. by rewrite Hc.
Qed.

End PrefixFacts.

(** ** More on parsing and on the pointers built *)

Section MorePointerFacts.
Context {PD PC : Type} `{!Schema PD PC}.
Import Text TextFacts PrefixFacts.

Lemma createChild_not_root (p : RecordElementPointer PD PC) t f nd c :
  _createChildPointer p t f nd = Return c → isRoot c = false.
Proof.
  intros Hc. apply createChild_toString in Hc as [Hp _].
  unfold isRoot. by rewrite Hp.
Qed.

Lemma parseTokens_not_root (p : RecordElementPointer PD PC) toks f nd q :
  parseTokens p toks f nd = Return q → toks ≠ [] → isRoot q = false.
Proof.
  revert p. induction toks as [|t toks IH]; intros p Hq Hne; [done|].
  cbn [parseTokens] in Hq. apply outcome_bind_Return in Hq as (c & Hc & Hq).
  destruct toks as [|t' toks].
  - injection Hq as <-. by eapply createChild_not_root.
  - by eapply IH.
Qed.

(** X1. What [parse] returns is a root pointer exactly when the string is
    empty, and it is then the root pointer bound to the record type. *)
Theorem parse_root_iff_empty (recordTypeDesc : PC) s noDash
    (p : RecordElementPointer PD PC) :
  parse recordTypeDesc s noDash = Return p →
  (isRoot p = true ↔ s = "") ∧ (s = "" → p = rootPointer recordTypeDesc).
Proof.
  unfold parse. case_match eqn:Hg; [done|]. intros Hp.
  destruct s as [|c s].
  - injection Hp as <-. done.
  - cbn in Hg. destruct (Ascii.eqb c "/"%char) eqn:Hc; [|done].
    assert (isRoot p = false) as Hr.
    { eapply parseTokens_not_root; [done|].
      unfold split. cbn [split_tokens]. rewrite Hc.
      by destruct (split_tokens s). }
    rewrite Hr. split; [split|]; done.
Qed.

Lemma validPointer_parse (rtd : PC) (q : RecordElementPointer PD PC) :
  validPointer rtd q → parse rtd (toString q) false = Return q.
Proof.
  intros Hq. unfold parse.
  assert ((0 <? String.length (toString q))%nat
          && negb (startsWithSlash (toString q)) = false) as ->.
  { destruct (validPointer_toString _ _ Hq) as [->|Hs]; [done|].
    by rewrite Hs, andb_false_r. }
  by apply validPointer_reparse.
Qed.

Lemma validPointer_toString_inj (rtd : PC) (p q : RecordElementPointer PD PC) :
  validPointer rtd p → validPointer rtd q → toString q = toString p → q = p.
Proof.
  intros Hp Hq Hs. pose proof (validPointer_parse rtd q Hq) as H1.
  rewrite Hs, (validPointer_parse rtd p Hp) in H1. by injection H1.
Qed.

(** X2. Printing a pointer built for a record type and parsing the string
    gives the pointer back; so two pointers built for the same record type
    that print alike are the same pointer. *)
Theorem toString_parse_roundtrip (recordTypeDesc : PC)
    (p : RecordElementPointer PD PC) :
  validPointer recordTypeDesc p →
  parse recordTypeDesc (toString p) false = Return p ∧
  ∀ q, validPointer recordTypeDesc q → toString q = toString p → q = p.
Proof.
  intros Hp. split; [by apply validPointer_parse|].
  intros q Hq. by apply (validPointer_toString_inj recordTypeDesc).
Qed.

Lemma validPointer_ancestors (rtd : PC) (p a : RecordElementPointer PD PC) :
  validPointer rtd p → a ∈ pointerChain p → validPointer rtd a.
Proof.
  induction 1 as [|p t f nd c Hp IH Hc].
  - cbn. intros ->%list_elem_of_singleton. apply valid_root.
  - rewrite pointerChain_ancestors. unfold ancestors.
    destruct (createChild_toString _ _ _ _ _ Hc) as [-> _].
    intros [->|Ha]%elem_of_cons; [by eapply valid_child|by apply IH].
Qed.

(** X3. For pointers built for the same record type, [isChildOf] tells
    exactly whether the other pointer is one of the nodes above this one
    in its chain. *)
Theorem isChildOf_iff_ancestor (recordTypeDesc : PC)
    (this other : RecordElementPointer PD PC) :
  validPointer recordTypeDesc this → validPointer recordTypeDesc other →
  isChildOf this other = true ↔ other ∈ ancestors this.
Proof.
  intros Hthis Hother. unfold isChildOf.
  induction Hthis as [|p t f nd c Hp IH Hc].
  - cbn. rewrite elem_of_nil. split; [|done].
    destruct (toString other); cbn; done.
  - destruct (createChild_toString _ _ _ _ _ Hc) as [Hpar Hs].
    unfold ancestors. rewrite Hpar, pointerChain_ancestors.
    change (_pointerString c) with (toString c). rewrite Hs.
    rewrite startsWith_extended by apply noSlash_escape.
    rewrite elem_of_cons, <- IH. split.
    + intros [Heq|Hpre]; [left|by right].
      by apply (validPointer_toString_inj recordTypeDesc).
    + intros [->|Hpre]; [by left|by right].
Qed.

(** X4. [isChildOf] is a strict order on pointers: no pointer is a child of
    itself, a child of a child is a child, and no two pointers are children
    of each other. *)
Theorem isChildOf_strict_order (a b c : RecordElementPointer PD PC) :
  isChildOf a a = false ∧
  (isChildOf a b = true → isChildOf b c = true → isChildOf a c = true) ∧
  (isChildOf a b = true → isChildOf b a = false).
Proof.
  unfold isChildOf, toString. split; [apply startsWith_self_slash|].
  split; [apply startsWith_trans|].
  intros Hab. destruct (startsWith (_pointerString b) _) eqn:Hba; [|done].
  pose proof (startsWith_trans _ _ _ Hab Hba) as Haa.
  by rewrite startsWith_self_slash in Haa.
Qed.

(** X7. The chain of a pointer built for a record type has one node for each
    token of its string and one for the root: as many nodes as [split]
    gives strings. *)
Theorem pointerChain_length (recordTypeDesc : PC)
    (p : RecordElementPointer PD PC) :
  validPointer recordTypeDesc p →
  length (pointerChain p) = length (split (toString p)).
Proof.
  induction 1 as [|p t f nd c Hp IH Hc]; [done|].
  destruct (createChild_toString _ _ _ _ _ Hc) as [Hpar Hs].
  rewrite pointerChain_ancestors. unfold ancestors. rewrite Hpar, Hs.
  rewrite split_app_slash, (split_noSlash_single (escape t)) by apply noSlash_escape.
  rewrite length_app. cbn. lia.
Qed.

(** What the constructor calls of [_createChildPointer] give to a child. *)
Lemma createChild_fields (q : RecordElementPointer PD PC) t f nd p :
  _createChildPointer q t f nd = Return p →
  (isRoot q = false → isDashElement q = false) ∧
  ∃ d, _propDesc p = Some d ∧
    if _collectionElement p then
      isRoot q = false ∧ _collectionElement q = false ∧ _propDesc q = Some d ∧
      _propPath q = _propPath p ∧ _childrenContainer q = _childrenContainer p ∧
      if isArray d
      then _collectionElementIndex p = Some (IndexString "-") ∨
           ∃ n, _collectionElementIndex p = Some (IndexNumber n)
      else isMap d = true ∧ _collectionElementIndex p = Some (IndexString t)
    else _collectionElementIndex p = None.
Proof.
  unfold _createChildPointer, objectProperty, isDashElement.
  destruct (isRoot q) eqn:Hroot.
  - repeat (case_match; try done); intros [= <-]; (split; [done|]);
      eexists; (split; [done|]); done.
  - destruct (_propDesc q) as [d|] eqn:Hd; [|done].
    destruct (_collectionElement q) eqn:Hce; cbn [andb negb].
    + destruct (isArray d && isDash (_collectionElementIndex q)); [done|].
      repeat (case_match; try done); intros [= <-]; (split; [done|]);
        eexists; (split; [done|]); done.
    + destruct (isArray d) eqn:Harr.
      * destruct (String.eqb t "-") eqn:Hdash; cbn [andb negb].
        -- destruct nd; [done|]. intros [= <-]. split; [done|]. exists d. cbn.
           rewrite ?Hd, Harr. repeat split; eauto.
        -- destruct (isArrayIndex t); [|done]. intros [= <-]. split; [done|].
           exists d. cbn. rewrite ?Hd, Harr. repeat split; eauto.
      * destruct (isMap d) eqn:Hmap.
        -- intros [= <-]. split; [done|]. exists d. cbn.
           by rewrite ?Hd, Harr, Hmap.
        -- repeat (case_match; try done); intros [= <-]; (split; [done|]);
             eexists; (split; [done|]); done.
Qed.

Lemma validPointer_root (rtd : PC) (p : RecordElementPointer PD PC) :
  validPointer rtd p → isRoot p = true → p = rootPointer rtd.
Proof.
  destruct 1 as [|q t f nd c Hq Hc]; [done|].
  by rewrite (createChild_not_root _ _ _ _ _ Hc).
Qed.

Lemma validPointer_parent (rtd : PC) (p q : RecordElementPointer PD PC) :
  validPointer rtd p → _parent p = Some q →
  validPointer rtd q ∧ isDashElement q = false.
Proof.
  destruct 1 as [|q' t f nd c Hq Hc]; [done|].
  destruct (createChild_toString _ _ _ _ _ Hc) as [-> _]. intros [= <-].
  split; [done|]. destruct (isRoot q') eqn:Hr.
  - by rewrite (validPointer_root _ _ Hq Hr).
  - by apply (createChild_fields _ _ _ _ _ Hc).
Qed.

(** X5. What holds of every pointer built for a record type. Without a
    parent it is the root pointer of [parse]. With a parent it has a property
    descriptor; if it is a collection element, its parent is the pointer to
    the collection itself, with the same descriptor, property path and
    children container, and its index is a number or the dash for an array
    and the key for a map; if it is not, it has no index. *)
Theorem validPointer_fields (recordTypeDesc : PC)
    (p : RecordElementPointer PD PC) :
  validPointer recordTypeDesc p →
  match _parent p with
  | None => p = rootPointer recordTypeDesc
  | Some q =>
      ∃ d, propDesc p = Some d ∧
        if collectionElement p then
          isRoot q = false ∧ collectionElement q = false ∧
          propDesc q = Some d ∧ propPath q = propPath p ∧
          _childrenContainer q = _childrenContainer p ∧
          if isArray d
          then collectionElementIndex p = Some (IndexString "-") ∨
               ∃ n, collectionElementIndex p = Some (IndexNumber n)
          else isMap d = true ∧
               ∃ k, collectionElementIndex p = Some (IndexString k)
        else collectionElementIndex p = None
  end.
Proof.
  destruct 1 as [|q t f nd c Hq Hc]; [done|].
  destruct (createChild_toString _ _ _ _ _ Hc) as [-> _].
  destruct (createChild_fields _ _ _ _ _ Hc) as (_ & d & Hd & Hrest).
  exists d. split; [done|]. unfold collectionElement, collectionElementIndex, propDesc, propPath.
  destruct (_collectionElement c); [|done].
  destruct Hrest as (? & ? & ? & ? & ? & Hidx). repeat (split; [done|]).
  destruct (isArray d); [done|]. destruct Hidx; eauto.
Qed.

(** X6. In a pointer built for a record type the dash can only be the index
    of the leaf: no node above the leaf is a dash element. *)
Theorem dash_only_at_leaf (recordTypeDesc : PC)
    (p a : RecordElementPointer PD PC) :
  validPointer recordTypeDesc p → a ∈ ancestors p → isDashElement a = false.
Proof.
  intros Hp. revert a. induction Hp as [|q t f nd c Hq IH Hc]; intros a.
  - cbn. by rewrite elem_of_nil.
  - assert (validPointer recordTypeDesc c) as Hvc by (by eapply valid_child).
    destruct (createChild_toString _ _ _ _ _ Hc) as [Hpar _].
    unfold ancestors. rewrite Hpar, pointerChain_ancestors.
    intros [->|Ha]%elem_of_cons; [|by apply IH].
    by apply (validPointer_parent _ _ _ Hvc Hpar).
Qed.

(** X22. The string of a pointer built for a record type is a pointer
    string of RFC 6901: empty or starting with a slash, with every tilde
    followed by 0 or 1, whatever the tokens were; and it is the list of the
    strings that [split] gives after the first, each after a slash. *)
Theorem toString_wellFormed (recordTypeDesc : PC)
    (p : RecordElementPointer PD PC) :
  validPointer recordTypeDesc p →
  (toString p = "" ∨ startsWithSlash (toString p) = true) ∧
  wellEscaped (toString p) = true ∧
  joinTokens (tail (split (toString p))) = toString p.
Proof.
  intros Hp.
  assert (toString p = "" ∨ startsWithSlash (toString p) = true) as Hs
    by (by eapply validPointer_toString).
  split; [done|]. split; [|by apply join_tail_split].
  clear Hs. induction Hp as [|q t f nd c Hq IH Hc]; [done|].
  destruct (createChild_toString _ _ _ _ _ Hc) as [_ ->].
  apply wellEscaped_app; [done|]. apply (wellEscaped_app "/"); [done|].
  apply wellEscaped_escape.
Qed.

(** One step with dashes disallowed: the same child, unless it is a dash
    element. *)
Lemma createChild_noDash (q : RecordElementPointer PD PC) t f c :
  _createChildPointer q t f true = Return c ↔
  _createChildPointer q t f false = Return c ∧ isDashElement c = false.
Proof.
  unfold _createChildPointer.
  destruct (isRoot q); [|destruct (_propDesc q) as [d|] eqn:Hd].
  - split; [|by intros [? _]]. intros Hc. split; [done|].
    revert Hc. unfold objectProperty, isDashElement.
    repeat (case_match; try done); intros [= <-]; cbn in *; by simplify_eq.
  - destruct (_collectionElement q && isArray d && isDash (_collectionElementIndex q));
      [by split; [|intros [? _]]|].
    destruct (_collectionElement q) eqn:Hce; cbn [negb andb].
    + split; [|by intros [? _]]. intros Hc. split; [done|].
      revert Hc. unfold objectProperty, isDashElement.
      repeat (case_match; try done); intros [= <-]; cbn in *; by simplify_eq.
    + destruct (isArray d) eqn:Harr.
      * destruct (String.eqb t "-") eqn:Hdash; cbn [andb negb].
        -- split; [done|]. intros [[= <-] Hnd]. revert Hnd.
           unfold isDashElement. cbn. by rewrite ?Hd, ?Harr.
        -- destruct (isArrayIndex t); cbn [negb]; [|by split; [|intros [? _]]].
           split; [|by intros [? _]]. intros [= <-]. split; [done|].
           unfold isDashElement. cbn. by rewrite ?Hd, ?Harr.
      * destruct (isMap d).
        -- split; [|by intros [? _]]. intros [= <-]. split; [done|].
           unfold isDashElement. cbn. by rewrite ?Hd, ?Harr.
        -- split; [|by intros [? _]]. intros Hc. split; [done|].
           revert Hc. unfold objectProperty, isDashElement.
           repeat (case_match; try done); intros [= <-]; cbn in *; by simplify_eq.
  - by split; [|intros [? _]].
Qed.

(** One step that gives a dash element is refused when dashes are
    disallowed. *)
Lemma createChild_dash_refused (q : RecordElementPointer PD PC) t f c :
  _createChildPointer q t f false = Return c → isDashElement c = true →
  _createChildPointer q t f true = Throw (X2SyntaxError DashNotAllowed f).
Proof.
  unfold _createChildPointer.
  destruct (isRoot q); [|destruct (_propDesc q) as [d|] eqn:Hd; [|done]].
  - unfold objectProperty, isDashElement.
    repeat (case_match; try done); intros [= <-]; cbn in *; by simplify_eq.
  - destruct (_collectionElement q && isArray d && isDash (_collectionElementIndex q));
      [done|].
    destruct (_collectionElement q) eqn:Hce; cbn [negb andb].
    + unfold objectProperty, isDashElement.
      repeat (case_match; try done); intros [= <-]; cbn in *; by simplify_eq.
    + destruct (isArray d) eqn:Harr.
      * destruct (String.eqb t "-") eqn:Hdash; cbn [andb negb]; [done|].
        destruct (isArrayIndex t); cbn [negb]; [|done].
        intros [= <-]. unfold isDashElement. cbn. by rewrite ?Hd, ?Harr.
      * destruct (isMap d).
        -- intros [= <-]. unfold isDashElement. cbn. by rewrite ?Hd, ?Harr.
        -- unfold objectProperty, isDashElement.
           repeat (case_match; try done); intros [= <-]; cbn in *; by simplify_eq.
Qed.

Lemma createChild_after_dash (q : RecordElementPointer PD PC) t f nd :
  isRoot q = false → isDashElement q = true →
  _createChildPointer q t f nd = Throw (X2SyntaxError UnexpectedDash f).
Proof.
  unfold isDashElement, _createChildPointer. intros ->.
  destruct (_propDesc q); [|done]. by intros ->.
Qed.

Lemma isDashElement_not_root (q : RecordElementPointer PD PC) rtd :
  validPointer rtd q → isDashElement q = true → isRoot q = false.
Proof.
  intros Hq Hd. destruct (isRoot q) eqn:Hr; [|done].
  by rewrite (validPointer_root _ _ Hq Hr) in Hd.
Qed.

Lemma parseTokens_noDash (rtd : PC) (p : RecordElementPointer PD PC) toks f q :
  validPointer rtd p →
  parseTokens p toks f true = Return q ↔
  parseTokens p toks f false = Return q ∧ (toks = [] ∨ isDashElement q = false).
Proof.
  revert p. induction toks as [|t toks IH]; intros p Hp.
  - cbn. split; [by eauto|by intros [? _]].
  - cbn [parseTokens]. split.
    + intros (c & Hc & Hq)%outcome_bind_Return.
      apply createChild_noDash in Hc as [Hc Hnd].
      assert (validPointer rtd c) as Hvc by (by eapply valid_child).
      rewrite Hc. cbn. apply (IH _ Hvc) in Hq as [Hq Hcase].
      split; [done|]. right. destruct Hcase as [->|?]; [|done].
      by injection Hq as <-.
    + intros [(c & Hc & Hq)%outcome_bind_Return [?|Hnd]]; [done|].
      assert (validPointer rtd c) as Hvc by (by eapply valid_child).
      assert (isDashElement c = false) as Hcd.
      { destruct toks as [|t' toks]; [by injection Hq as <-|].
        destruct (isDashElement c) eqn:E; [|done].
        cbn [parseTokens] in Hq.
        rewrite createChild_after_dash in Hq by eauto using isDashElement_not_root.
        done. }
      rewrite (proj2 (createChild_noDash _ _ _ _) (conj Hc Hcd)). cbn.
      apply (IH _ Hvc). eauto.
Qed.

Lemma parseTokens_dash_refused (rtd : PC) (p : RecordElementPointer PD PC)
    toks f q :
  validPointer rtd p → toks ≠ [] →
  parseTokens p toks f false = Return q → isDashElement q = true →
  parseTokens p toks f true = Throw (X2SyntaxError DashNotAllowed f).
Proof.
  revert p. induction toks as [|t toks IH]; intros p Hp Hne; [done|].
  cbn [parseTokens]. intros (c & Hc & Hq)%outcome_bind_Return Hqd.
  assert (validPointer rtd c) as Hvc by (by eapply valid_child).
  destruct toks as [|t' toks].
  - injection Hq as <-. by rewrite (createChild_dash_refused _ _ _ _ Hc Hqd).
  - assert (isDashElement c = false) as Hcd.
    { destruct (isDashElement c) eqn:E; [|done].
      cbn [parseTokens] in Hq.
      rewrite createChild_after_dash in Hq by eauto using isDashElement_not_root.
      done. }
    rewrite (proj2 (createChild_noDash _ _ _ _) (conj Hc Hcd)). cbn.
    by apply (IH _ Hvc).
Qed.

(** X8. What [noDash] changes in [parse]: with it, [parse] returns a pointer
    exactly when it returns that pointer without it and the pointer is not a
    dash element; and when the pointer is a dash element, [parse] with
    [noDash] throws the error that the dash is not allowed. *)
Theorem parse_noDash (recordTypeDesc : PC) s (p : RecordElementPointer PD PC) :
  (parse recordTypeDesc s true = Return p ↔
   parse recordTypeDesc s false = Return p ∧ isDashElement p = false) ∧
  (parse recordTypeDesc s false = Return p → isDashElement p = true →
   parse recordTypeDesc s true = Throw (X2SyntaxError DashNotAllowed s)).
Proof.
  unfold parse. case_match; [by split; [split; [|intros [? _]]|]|].
  pose proof (valid_root recordTypeDesc) as Hroot.
  split.
  - rewrite (parseTokens_noDash recordTypeDesc) by done.
    split; intros [Hp Hcase]; (split; [done|]); [|by right].
    destruct Hcase as [Hnil|?]; [|done]. rewrite Hnil in Hp. by injection Hp as <-.
  - intros Hp Hd. eapply parseTokens_dash_refused; [done| |done|done].
    intros Hnil. rewrite Hnil in Hp. by injection Hp as <-.
Qed.

Lemma createChild_error_quotes (q : RecordElementPointer PD PC) t f nd why f' :
  _createChildPointer q t f nd = Throw (X2SyntaxError why f') → f' = f.
Proof.
  unfold _createChildPointer, objectProperty.
  repeat (case_match; try done); by intros [= _ <-].
Qed.

Lemma parseTokens_error_quotes (q : RecordElementPointer PD PC)
    toks f nd why f' :
  parseTokens q toks f nd = Throw (X2SyntaxError why f') → f' = f.
Proof.
  revert q. induction toks as [|t toks IH]; intros q; [done|].
  cbn [parseTokens].
  destruct (_createChildPointer q (unescape t) f nd) as [c|e] eqn:Hc; cbn.
  - apply IH.
  - intros [= ->]. by eapply createChild_error_quotes.
Qed.

(** X9. The string quoted by an [X2SyntaxError]: [parse] quotes the whole
    string it was given, whichever token is refused; [createChildPointer]
    quotes the string of the pointer, a slash and the token as it was
    given, not escaped. *)
Theorem syntax_error_quotes (recordTypeDesc : PC)
    (this : RecordElementPointer PD PC) s t noDash why quoted :
  (parse recordTypeDesc s noDash = Throw (X2SyntaxError why quoted) →
   quoted = s) ∧
  (createChildPointer this t = Throw (X2SyntaxError why quoted) →
   quoted = toString this +:+ "/" +:+ t).
Proof.
  split.
  - unfold parse. case_match; [by intros [= _ <-]|].
    apply parseTokens_error_quotes.
  - unfold createChildPointer. apply createChild_error_quotes.
Qed.

Lemma parseTokens_noDash_cases (rtd : PC) (p : RecordElementPointer PD PC)
    toks f q :
  validPointer rtd p → parseTokens p toks f false = Return q →
  parseTokens p toks f true = Return q ∨
  parseTokens p toks f true = Throw (X2SyntaxError DashNotAllowed f).
Proof.
  intros Hp Hq. destruct toks as [|t toks]; [by left|].
  destruct (isDashElement q) eqn:Hd.
  - right. by eapply parseTokens_dash_refused.
  - left. apply (parseTokens_noDash rtd); eauto.
Qed.

(** One step from a pointer to a value that has no nested properties. *)
Lemma createChild_scalar (q : RecordElementPointer PD PC) d t f nd :
  isRoot q = false → _propDesc q = Some d →
  String.eqb (scalarValueType d) "object" = false →
  _collectionElement q = true ∨ (isArray d = false ∧ isMap d = false) →
  _createChildPointer q t f nd = Throw (X2SyntaxError UnexpectedDash f) ∨
  _createChildPointer q t f nd = Throw (X2SyntaxError NoNestedElements f).
Proof.
  intros Hr Hd Hs Hkind. unfold _createChildPointer. rewrite Hr, Hd.
  destruct (_collectionElement q && isArray d && isDash (_collectionElementIndex q));
    [by left|right].
  destruct Hkind as [->|[-> ->]]; cbn [negb andb];
    rewrite ?andb_false_r, Hs; done.
Qed.

(** X10. Nothing parses below a value without nested properties: when a
    pointer built for a record type addresses a property whose value type is
    not "object" (the property itself if it is neither an array nor a map, or
    an element of it), [createChildPointer] throws an [X2SyntaxError] for
    every token and [parse] throws an [X2SyntaxError] for every string that
    continues the string of the pointer after a slash. *)
Theorem no_pointer_below_scalar (recordTypeDesc : PC)
    (p : RecordElementPointer PD PC) d :
  validPointer recordTypeDesc p →
  isRoot p = false → propDesc p = Some d →
  String.eqb (scalarValueType d) "object" = false →
  collectionElement p = true ∨ (isArray d = false ∧ isMap d = false) →
  (∀ t, ∃ why quoted,
     createChildPointer p t = Throw (X2SyntaxError why quoted)) ∧
  (∀ rest noDash, ∃ why,
     parse recordTypeDesc (toString p +:+ "/" +:+ rest) noDash
       = Throw (X2SyntaxError why (toString p +:+ "/" +:+ rest))).
Proof.
  intros Hp Hr Hd Hs Hkind. split.
  - intros t. unfold createChildPointer.
    destruct (createChild_scalar p d t (_pointerString p +:+ "/" +:+ t) false
                Hr Hd Hs Hkind) as [-> | ->]; eauto.
  - intros rest noDash. unfold parse.
    set (full := toString p +:+ "/" +:+ rest).
    assert ((0 <? String.length full)%nat && negb (startsWithSlash full) = false) as ->.
    { subst full. destruct (validPointer_toString _ _ Hp) as [->|Hsl]; [done|].
      destruct (toString p) as [|a s']; [done|].
      rewrite string_app_cons. cbn in *. by rewrite Hsl. }
    assert (tail (split full) = tail (split (toString p)) ++ split rest) as ->.
    { subst full. rewrite split_app_slash.
      unfold split at 1 3. by destruct (split_tokens (toString p)). }
    rewrite parseTokens_app.
    pose proof (validPointer_reparse recordTypeDesc p full Hp) as Hre.
    assert (∃ t ts, split rest = t :: ts) as (t & ts & ->)
      by (unfold split; destruct (split_tokens rest); eauto).
    assert (∀ nd, ∃ why, parseTokens p (t :: ts) full nd
                         = Throw (X2SyntaxError why full)) as Hstep.
    { intros nd. cbn [parseTokens].
      destruct (createChild_scalar p d (unescape t) full nd Hr Hd Hs Hkind)
        as [-> | ->]; eauto. }
    destruct noDash.
    + destruct (parseTokens_noDash_cases _ _ _ _ _ (valid_root recordTypeDesc) Hre)
        as [-> | ->]; cbn; [apply Hstep|eauto].
    + rewrite Hre. cbn. apply Hstep.
Qed.

End MorePointerFacts.

(** ** More on reading and changing records *)

Section MoreNavigatorFacts.
Context {PD PC : Type} `{!Schema PD PC}.

(** X11. A trace callback that returns without touching the store changes
    nothing of what [getValue] does: the result and the store left are those
    of [getValue] without a callback. *)
Theorem getValue_trace_neutral (this : RecordElementPointer PD PC) record
    (traceFunc : traceCallback) h :
  (∀ p v i h0, traceFunc p v i h0 = (Return (), h0)) →
  getValue this record (Some traceFunc) h = getValue this record None h.
Proof.
  intros Hf. unfold getValue, reduceRight. apply reduceRightFrom_ext.
  intros acc p i h0 _. unfold getValueTraceStep, getValueStep, mbind, M_bind.
  destruct (_getImmediateValue p acc i false h0) as [[v|e] h1]; [|done].
  by rewrite Hf.
Qed.

(** What the steps throw as [X2DataError]. *)
Lemma getProp_not_DataError obj k h r h' :
  getProp obj k h ≠ (Throw (X2DataError r), h').
Proof. unfold getProp. by repeat case_match. Qed.

Lemma setProp_not_DataError obj k v h r h' :
  setProp obj k v h ≠ (Throw (X2DataError r), h').
Proof. unfold setProp. by repeat case_match. Qed.

Lemma getImmediateValue_DataError (p : RecordElementPointer PD PC)
    obj i fs h r h' :
  _getImmediateValue p obj i fs h = (Throw (X2DataError r), h') →
  r = NoPropertyValue (toString p) ∧ (0 < i)%nat.
Proof.
  assert (∀ v h0, elementValue p v i h0 = (Throw (X2DataError r), h') →
    r = NoPropertyValue (toString p) ∧ (0 < i)%nat) as Helem.
  { intros v h0. unfold elementValue, throw, noValue, mret, M_ret.
    destruct i; [by rewrite andb_false_r|]. case_match; [|done].
    intros [= <- _]. split; [done|lia]. }
  assert (∀ k (g : jsvalue → M jsvalue),
    (∀ v h0, g v h0 = (Throw (X2DataError r), h') →
       r = NoPropertyValue (toString p) ∧ (0 < i)%nat) →
    (getProp obj k ≫= g) h = (Throw (X2DataError r), h') →
    r = NoPropertyValue (toString p) ∧ (0 < i)%nat) as Hread.
  { intros k g Hg. unfold mbind, M_bind.
    destruct (getProp obj k h) as [[v|e] h0] eqn:Hget; [apply Hg|].
    intros [= -> ->]. by apply getProp_not_DataError in Hget. }
  assert (∀ c d h0,
    (alloc c ≫= λ val, (if fs then setProp obj (KString (name d)) val else mret ())
       ≫= λ _, mret val) h0 ≠ (Throw (X2DataError r), h')) as Halloc.
  { intros c d h0. unfold alloc, mbind, M_bind, mret, M_ret. destruct fs; [|done].
    destruct (setProp _ _ _ _) as [[[]|e] h1] eqn:Hset; [done|].
    intros [= -> ->]. by apply setProp_not_DataError in Hset. }
  unfold _getImmediateValue.
  destruct (isRoot p); [done|]. destruct (_propDesc p) as [d|]; [|done].
  destruct (isArray d && _collectionElement p).
  { destruct (negb (isDash (_collectionElementIndex p))); [|done].
    apply Hread, Helem. }
  destruct (isMap d && _collectionElement p); [apply Hread, Helem|].
  apply Hread. intros v h0.
  destruct (match v with VUndefined => VNull | _ => v end); try done.
  destruct i as [|[|i]]; cbn [Nat.ltb Nat.leb]; [done| |].
  - destruct (isArray d); [intros Hx; by apply Halloc in Hx|].
    destruct (isMap d); [intros Hx; by apply Halloc in Hx|].
    unfold throw, noValue. intros [= <- _]. split; [done|lia].
  - unfold throw, noValue. intros [= <- _]. split; [done|lia].
Qed.

Lemma reduceRightFrom_DataError (f : jsvalue → RecordElementPointer PD PC → nat → M jsvalue)
    k l init h r h' :
  (∀ acc p i h0 r0 h1, (k ≤ i)%nat →
     f acc p i h0 = (Throw (X2DataError r0), h1) →
     r0 = NoPropertyValue (toString p)) →
  reduceRightFrom k f l init h = (Throw (X2DataError r), h') →
  ∃ p, p ∈ l ∧ r = NoPropertyValue (toString p).
Proof.
  revert k. induction l as [|x l IH]; intros k Hf; [done|].
  cbn [reduceRightFrom]. unfold mbind, M_bind.
  destruct (reduceRightFrom (S k) f l init h) as [[acc|e] h1] eqn:E.
  - intros Hx. exists x. split; [left|]. by eapply (Hf acc x k h1).
  - intros [= -> ->].
    destruct (IH (S k)) as (p & Hp & Hr);
      [intros acc p i h0 r0 h2 Hi Hx; apply (Hf acc p i h0 r0 h2); [lia|done]|done|].
    exists p. split; [by right|done].
Qed.

(** X12. When [getValue] throws an [X2DataError], the pointer named in the
    message is one of the nodes above the leaf: a value is never missed at
    the leaf itself. *)
Theorem getValue_DataError_names_ancestor (this : RecordElementPointer PD PC)
    record h r h' :
  getValue this record None h = (Throw (X2DataError r), h') →
  ∃ p, p ∈ ancestors this ∧ r = NoPropertyValue (toString p).
Proof.
  unfold getValue, reduceRight. rewrite pointerChain_ancestors.
  cbn [reduceRightFrom]. unfold mbind, M_bind.
  destruct (reduceRightFrom 1 getValueStep (ancestors this) record h)
    as [[acc|e] h1] eqn:E.
  - intros Hx. apply getImmediateValue_DataError in Hx as [_ Hi]. lia.
  - intros [= -> ->]. eapply reduceRightFrom_DataError; [|done].
    intros acc p i h0 r0 h2 _ Hx. by apply getImmediateValue_DataError in Hx as [-> _].
Qed.

(** X14. Unless the leaf is an array element, [addValue] and [replaceValue]
    are the same operation. *)
Theorem addValue_replaceValue_same (this : RecordElementPointer PD PC)
    record value h :
  (∀ d, _propDesc this = Some d → _collectionElement this && isArray d = false) →
  addValue this record value h = replaceValue this record value h.
Proof.
  intros Hleaf. unfold addValue, replaceValue, _setValue.
  destruct (checkValue this value); [|done].
  unfold reduceRight. rewrite pointerChain_ancestors. cbn [reduceRightFrom].
  unfold mbind, M_bind.
  rewrite (reduceRightFrom_ext 1 _ (setValueStep value false)); last first.
  { intros acc x i h0 Hi. destruct i as [|i]; [lia|]. done. }
  destruct (reduceRightFrom 1 _ (ancestors this) record h) as [[acc|e] h1]; [|done].
  unfold setValueStep. cbn [Nat.eqb].
  assert (∀ h2, setLeaf value true acc this h2 = setLeaf value false acc this h2) as Heq.
  { intros h2. unfold setLeaf. destruct (_propDesc this) as [d|] eqn:Hd; [|done].
    by rewrite (Hleaf d eq_refl). }
  unfold mbind, M_bind.
  destruct (_getImmediateValue this acc 0 true h1) as [[c0|e] h2]; [|done].
  by rewrite Heq.
Qed.

(** An operation whose value is accepted, cut at the leaf. *)
Lemma run_leaf op (this : RecordElementPointer PD PC) record parent h h1 :
  valueAccepted op this → isRoot this = false →
  reduceRightFrom 1 (stepOf op) (ancestors this) record h = (Return parent, h1) →
  run op this record h = stepOf op parent this 0 h1.
Proof.
  intros Hv Hr Hup. rewrite run_loop by done. unfold reduceRight.
  rewrite pointerChain_ancestors. cbn [reduceRightFrom].
  by rewrite (M_bind_Return_eq _ _ _ _ _ Hup).
Qed.

(** The callback of an operation at the leaf, once the leaf is read. *)
Lemma stepOf_leaf op (this : RecordElementPointer PD PC) parent c h :
  (∀ fs, _getImmediateValue this parent 0 fs h = (Return c, h)) →
  stepOf op parent this 0 h =
    match (match op with
           | OpAdd v => setLeaf v true parent this
           | OpReplace v => setLeaf v false parent this
           | OpRemove => removeLeaf parent this
           end) h with
    | (Return _, h') => (Return c, h')
    | (Throw e, h') => (Throw e, h')
    end.
Proof.
  intros Hread. destruct op as [v|v|]; cbn [stepOf];
    unfold setValueStep, removeValueStep, mbind, M_bind, mret, M_ret;
    rewrite Hread; cbn [Nat.eqb]; by repeat case_match.
Qed.

Lemma leaf_read_array (this : RecordElementPointer PD PC) d n la xs fs h :
  isRoot this = false → _propDesc this = Some d →
  _collectionElement this = true → isArray d = true →
  _collectionElementIndex this = Some (IndexNumber n) →
  h !! la = Some (JArray xs) →
  _getImmediateValue this (VRef la) 0 fs h
    = (Return (default VUndefined (xs !! N.to_nat n)), h).
Proof.
  intros Hr Hd Hce Harr Hidx Hla. unfold _getImmediateValue.
  rewrite Hr, Hd, Hce, Harr, Hidx. cbn. unfold mbind, M_bind.
  rewrite (getProp_array _ _ _ _ Hla). unfold elementValue. by rewrite andb_false_r.
Qed.

Lemma leaf_read_dash (this : RecordElementPointer PD PC) d obj fs h :
  isRoot this = false → _propDesc this = Some d →
  _collectionElement this = true → isArray d = true →
  _collectionElementIndex this = Some (IndexString "-") →
  _getImmediateValue this obj 0 fs h = (Return VUndefined, h).
Proof.
  intros Hr Hd Hce Harr Hidx. unfold _getImmediateValue.
  by rewrite Hr, Hd, Hce, Harr, Hidx.
Qed.

Lemma leaf_read_map (this : RecordElementPointer PD PC) d k lo m fs h :
  isRoot this = false → _propDesc this = Some d →
  _collectionElement this = true → isArray d = false → isMap d = true →
  _collectionElementIndex this = Some (IndexString k) →
  h !! lo = Some (JObject m) →
  _getImmediateValue this (VRef lo) 0 fs h
    = (Return (member m k), h).
Proof.
  intros Hr Hd Hce Harr Hmap Hidx Hlo. unfold _getImmediateValue.
  rewrite Hr, Hd, Hce, Harr, Hmap, Hidx. cbn. unfold mbind, M_bind.
  rewrite (getProp_object _ _ _ _ Hlo). unfold elementValue. by rewrite andb_false_r.
Qed.

Lemma leaf_read_property (this : RecordElementPointer PD PC) d lo m fs h :
  isRoot this = false → _propDesc this = Some d →
  _collectionElement this = false →
  h !! lo = Some (JObject m) →
  _getImmediateValue this (VRef lo) 0 fs h
    = (Return match member m (name d) with
              | VUndefined => VNull
              | v => v
              end, h).
Proof.
  intros Hr Hd Hce Hlo. unfold _getImmediateValue.
  rewrite Hr, Hd, Hce, !andb_false_r. unfold mbind, M_bind.
  rewrite (getProp_object _ _ _ _ Hlo).
  by destruct (member m (name d)).
Qed.

(** X15. The leaf is an array element with a number for index, and the
    index is within the array the nodes above lead to. Then [addValue] puts
    the value in front of the element at the index, [replaceValue] puts it
    in its place and [removeValue] takes the element out, the elements after
    it moving one place down; each returns the element that was at the
    index, and no other object of the store changes. *)
Theorem array_leaf_in_bounds op (this : RecordElementPointer PD PC) d n
    record la xs x h h1 :
  valueAccepted op this →
  isRoot this = false → _propDesc this = Some d →
  _collectionElement this = true → isArray d = true →
  _collectionElementIndex this = Some (IndexNumber n) →
  reduceRightFrom 1 (stepOf op) (ancestors this) record h
    = (Return (VRef la), h1) →
  h1 !! la = Some (JArray xs) →
  xs !! N.to_nat n = Some x →
  run op this record h =
    (Return x,
     <[la := JArray match op with
                    | OpAdd v => take (N.to_nat n) xs ++ v :: drop (N.to_nat n) xs
                    | OpReplace v => <[N.to_nat n := v]> xs
                    | OpRemove => take (N.to_nat n) xs ++ drop (S (N.to_nat n)) xs
                    end]> h1).
Proof.
  intros Hv Hr Hd Hce Harr Hidx Hup Hla Hx.
  rewrite (run_leaf _ _ _ _ _ _ Hv Hr Hup).
  rewrite (stepOf_leaf _ _ _ x); last first.
  { intros fs. by rewrite (leaf_read_array _ _ _ _ _ _ _ Hr Hd Hce Harr Hidx Hla), Hx. }
  pose proof (lookup_lt_Some _ _ _ Hx) as Hlen.
  assert ((n <? N.of_nat (length xs))%N = true) as Hlt by (apply N.ltb_lt; lia).
  destruct op as [v|v|]; unfold setLeaf, removeLeaf;
    rewrite Hd, Hce, Harr, Hidx; cbn; unfold mbind, M_bind;
    rewrite (arrayLength_array _ _ _ Hla), Hlt.
  - unfold arraySplice. rewrite Hla. by rewrite Nat.add_0_r.
  - unfold setProp. rewrite Hla. by rewrite decide_True by done.
  - unfold arraySplice. rewrite Hla. cbn. by rewrite Nat.add_1_r.
Qed.

(** X16. The leaf is the dash of an array the nodes above lead to. Then
    [addValue] puts the value after the last element and returns
    [undefined]; [replaceValue] and [removeValue] throw an [X2UsageError]
    and change nothing. *)
Theorem dash_leaf op (this : RecordElementPointer PD PC) d record la xs h h1 :
  valueAccepted op this →
  isRoot this = false → _propDesc this = Some d →
  _collectionElement this = true → isArray d = true →
  _collectionElementIndex this = Some (IndexString "-") →
  reduceRightFrom 1 (stepOf op) (ancestors this) record h
    = (Return (VRef la), h1) →
  h1 !! la = Some (JArray xs) →
  run op this record h =
    match op with
    | OpAdd v => (Return VUndefined, <[la := JArray (xs ++ [v])]> h1)
    | OpReplace _ => (Throw (X2UsageError ReplaceDashIndex), h1)
    | OpRemove => (Throw (X2UsageError DeleteDashIndex), h1)
    end.
Proof.
  intros Hv Hr Hd Hce Harr Hidx Hup Hla.
  rewrite (run_leaf _ _ _ _ _ _ Hv Hr Hup).
  rewrite (stepOf_leaf _ _ _ VUndefined); last first.
  { intros fs. by apply (leaf_read_dash _ d). }
  destruct op as [v|v|]; unfold setLeaf, removeLeaf;
    rewrite Hd, Hce, Harr, Hidx; cbn; [|done|done].
  unfold arrayPush. by rewrite Hla.
Qed.

(** X17. The leaf is a property of an object, or an element of a map, that
    the nodes above lead to, and its name or key names no member of
    [Object.prototype]. Then [addValue] and [replaceValue] set the property
    or the key to the value, [removeValue] deletes it; each returns the
    value it had: for a property, [null] if there was none; for a map
    element, [undefined] if there was none. No other object changes. *)
Theorem keyed_leaf op (this : RecordElementPointer PD PC) d k previous
    record lo m h h1 :
  valueAccepted op this →
  isRoot this = false → _propDesc this = Some d →
  k ∉ objectPrototype →
  (_collectionElement this = false ∧ k = name d ∧
   previous = match default VUndefined (m !! k) with
              | VUndefined => VNull
              | v => v
              end) ∨
  (_collectionElement this = true ∧ isArray d = false ∧ isMap d = true ∧
   _collectionElementIndex this = Some (IndexString k) ∧
   previous = default VUndefined (m !! k)) →
  reduceRightFrom 1 (stepOf op) (ancestors this) record h
    = (Return (VRef lo), h1) →
  h1 !! lo = Some (JObject m) →
  run op this record h =
    (Return previous,
     <[lo := JObject match op with
                     | OpAdd v | OpReplace v => <[k := v]> m
                     | OpRemove => delete k m
                     end]> h1).
Proof.
  intros Hv Hr Hd Hown Hleaf Hup Hlo.
  rewrite (run_leaf _ _ _ _ _ _ Hv Hr Hup).
  rewrite (stepOf_leaf _ _ _ previous); last first.
  { intros fs. rewrite <- (member_plain m k Hown) in Hleaf.
    destruct Hleaf as [(Hce & -> & ->)|(Hce & Harr & Hmap & Hidx & ->)].
    - by apply (leaf_read_property _ d).
    - by apply (leaf_read_map _ d). }
  destruct Hleaf as [(Hce & Hk & _)|(Hce & Harr & Hmap & Hidx & _)];
    [subst k|];
    destruct op as [v|v|]; unfold setLeaf, removeLeaf;
    rewrite Hd, Hce, ?Harr, ?Hmap, ?Hidx, ?andb_false_r; cbn;
    unfold setProp, deleteProp; by rewrite Hlo, ?(assigned_plain _ _ _ Hown).
Qed.

(** What each change of an object leaves as it is. *)
Lemma unchangedExcept_refl keep h : unchangedExcept keep h h.
Proof. by intros ???. Qed.

Lemma unchanged_unchangedExcept h h' : unchanged h h' → unchangedExcept [] h h'.
Proof. intros Hh l o Hl _. by apply Hh. Qed.

Lemma unchangedExcept_insert keep (h : heap) l o :
  VRef l ∈ keep → unchangedExcept keep h (<[l := o]> h).
Proof.
  intros Hk l' o' Hl' Hnk. rewrite lookup_insert_ne; [done|]. by intros ->.
Qed.

Lemma setProp_frame obj k v h : unchangedExcept [obj] h (setProp obj k v h).2.
Proof.
  unfold setProp. repeat case_match; try apply unchangedExcept_refl;
    apply unchangedExcept_insert; by left.
Qed.

Lemma deleteProp_frame obj k h : unchangedExcept [obj] h (deleteProp obj k h).2.
Proof.
  unfold deleteProp. repeat case_match; try apply unchangedExcept_refl;
    apply unchangedExcept_insert; by left.
Qed.

Lemma arrayPush_frame obj v h : unchangedExcept [obj] h (arrayPush obj v h).2.
Proof.
  unfold arrayPush. repeat case_match; try apply unchangedExcept_refl;
    apply unchangedExcept_insert; by left.
Qed.

Lemma arraySplice_frame obj n k items h :
  unchangedExcept [obj] h (arraySplice obj n k items h).2.
Proof.
  unfold arraySplice. repeat case_match; try apply unchangedExcept_refl;
    apply unchangedExcept_insert; by left.
Qed.

Lemma arrayLength_heap obj h : (arrayLength obj h).2 = h.
Proof. unfold arrayLength. by repeat case_match. Qed.

Lemma bind_frame {A B} (c : M A) (g : A → M B) keep h :
  (c h).2 = h → (∀ a, unchangedExcept keep h (g a h).2) →
  unchangedExcept keep h ((c ≫= g) h).2.
Proof.
  intros Hc Hg. unfold mbind, M_bind.
  destruct (c h) as [[a|err] h0]; cbn in Hc; subst h0; [apply Hg|].
  apply unchangedExcept_refl.
Qed.

Lemma setLeaf_frame v ins obj (p : RecordElementPointer PD PC) h :
  unchangedExcept [obj] h (setLeaf v ins obj p h).2.
Proof.
  unfold setLeaf, throw.
  destruct (_propDesc p) as [d|]; [|apply unchangedExcept_refl].
  destruct (_collectionElement p && isArray d).
  - destruct (isDash (_collectionElementIndex p)).
    + destruct (negb ins); [apply unchangedExcept_refl|apply arrayPush_frame].
    + destruct (_collectionElementIndex p) as [[n|s]|]; try apply unchangedExcept_refl.
      apply bind_frame; [apply arrayLength_heap|]. intros len.
      destruct (n <? N.of_nat len)%N; [|apply unchangedExcept_refl].
      destruct ins; [apply arraySplice_frame|apply setProp_frame].
  - destruct (_collectionElement p && isMap d); apply setProp_frame.
Qed.

Lemma removeLeaf_frame obj (p : RecordElementPointer PD PC) h :
  unchangedExcept [obj] h (removeLeaf obj p h).2.
Proof.
  unfold removeLeaf, throw, mret, M_ret.
  destruct (_propDesc p) as [d|]; [|apply unchangedExcept_refl].
  destruct (_collectionElement p && isArray d).
  - destruct (isDash (_collectionElementIndex p)); [apply unchangedExcept_refl|].
    destruct (truthy obj); [|apply unchangedExcept_refl].
    destruct (_collectionElementIndex p) as [[n|s]|]; try apply unchangedExcept_refl.
    apply bind_frame; [apply arrayLength_heap|]. intros len.
    destruct (n <? N.of_nat len)%N; [|apply unchangedExcept_refl].
    apply arraySplice_frame.
  - destruct (truthy obj); [|apply unchangedExcept_refl].
    destruct (_collectionElement p && isMap d); apply deleteProp_frame.
Qed.

Lemma stepOf_leaf_frame op obj (p : RecordElementPointer PD PC) h :
  unchangedExcept [obj] h (stepOf op obj p 0 h).2.
Proof.
  pose proof (getImmediateValue_leaf_heap p obj (forSetOf op) h) as Hh.
  destruct op as [v|v|]; cbn [stepOf forSetOf] in *;
    unfold setValueStep, removeValueStep, mbind, M_bind, mret, M_ret;
    cbn [Nat.eqb];
    destruct (_getImmediateValue p obj 0 _ h) as [[c|e] h0]; cbn in Hh; subst h0;
    try apply unchangedExcept_refl.
  - pose proof (setLeaf_frame v true obj p h) as Hf.
    by destruct (setLeaf v true obj p h) as [[[]|e] h1].
  - pose proof (setLeaf_frame v false obj p h) as Hf.
    by destruct (setLeaf v false obj p h) as [[[]|e] h1].
  - pose proof (removeLeaf_frame obj p h) as Hf.
    by destruct (removeLeaf obj p h) as [[[]|e] h1].
Qed.

Lemma getImmediateValue_frame (p : RecordElementPointer PD PC) obj i
    (fs : bool) h :
  unchangedExcept (if fs then [obj] else @nil jsvalue) h
    (_getImmediateValue p obj i fs h).2.
Proof.
  destruct fs; [|apply unchanged_unchangedExcept, getImmediateValue_unchanged].
  assert (∀ c d h0, unchangedExcept [obj] h0
    ((alloc c ≫= λ val, setProp obj (KString (name d)) val ≫= λ _, mret val) h0).2)
    as Halloc.
  { intros c d h0. unfold alloc, mbind, M_bind, mret, M_ret.
    pose proof (setProp_frame obj (KString (name d)) (VRef (fresh (dom h0)))
                  (<[fresh (dom h0) := c]> h0)) as Hf.
    assert (unchangedExcept [obj] h0 (setProp obj (KString (name d))
              (VRef (fresh (dom h0))) (<[fresh (dom h0) := c]> h0)).2) as Hg.
    { intros l o Hl Hk. apply Hf; [|done].
      rewrite lookup_insert_ne; [done|]. by eapply fresh_ne. }
    by destruct (setProp _ _ _ _) as [[[]|e] h1]. }
  unfold _getImmediateValue, elementValue, throw, mret, M_ret.
  destruct (isRoot p); [apply unchangedExcept_refl|].
  destruct (_propDesc p) as [d|]; [|apply unchangedExcept_refl].
  unfold mbind at 1 2 3, M_bind at 1 2 3.
  repeat case_match; try apply unchangedExcept_refl;
    try match goal with
    | H : getProp ?o ?k ?h0 = (_, ?h1) |- _ =>
        pose proof (getProp_heap o k h0) as Hh; rewrite H in Hh; cbn in Hh; subst h1
    end; try apply unchangedExcept_refl; try apply Halloc.
Qed.

(** What the leaf step of a write leaves to be read at the leaf. *)
Lemma setLeaf_then_read v ins parent (this : RecordElementPointer PD PC) h h' :
  isRoot this = false → isDashElement this = false →
  leafName this ≠ Some "__proto__" → v ≠ VUndefined →
  setLeaf v ins parent this h = (Return (), h') →
  ∃ lo, parent = VRef lo ∧ is_Some (h' !! lo) ∧
        ∀ fs, _getImmediateValue this parent 0 fs h' = (Return v, h').
Proof.
  intros Hr Hnd Hname Hv. unfold setLeaf, isDashElement, leafName in *.
  destruct (_propDesc this) as [d|] eqn:Hd; [|done].
  destruct (_collectionElement this) eqn:Hce; cbn [andb] in *.
  - destruct (isArray d) eqn:Harr; cbn [andb] in *.
    + rewrite Hnd. destruct (_collectionElementIndex this) as [[n|s]|] eqn:Hidx;
        [|done|done].
      unfold mbind, M_bind, arrayLength.
      destruct parent as [| | | | |la|]; try done.
      destruct (h !! la) as [[xs|m]|] eqn:Hla; try done.
      destruct (n <? N.of_nat (length xs))%N eqn:Hlt; [|done].
      apply N.ltb_lt in Hlt.
      assert (∀ xs', xs' !! N.to_nat n = Some v →
        ∃ lo, VRef la = VRef lo ∧ is_Some (<[la := JArray xs']> h !! lo) ∧
          ∀ fs, _getImmediateValue this (VRef la) 0 fs (<[la := JArray xs']> h)
                = (Return v, <[la := JArray xs']> h)) as Hdone.
      { intros xs' Hx. exists la. split; [done|].
        rewrite lookup_insert_eq. split; [by eexists|]. intros fs.
        rewrite (leaf_read_array _ d n la xs') by (done || apply lookup_insert_eq).
        by rewrite Hx. }
      destruct ins.
      * unfold arraySplice. rewrite Hla. intros [= <-]. apply Hdone.
        rewrite lookup_app_r by (rewrite length_take; lia).
        rewrite length_take. replace (N.to_nat n - _)%nat with 0%nat by lia. done.
      * unfold setProp. rewrite Hla, decide_True by lia. intros [= <-].
        apply Hdone. apply list_lookup_insert_eq. lia.
    + destruct (isMap d) eqn:Hmap.
      * unfold setProp. destruct parent as [| | | | |lo|]; try done.
        destruct (h !! lo) as [[xs|m]|] eqn:Hlo; try done.
        -- destruct (keyOf (_collectionElementIndex this)) as [n|s] eqn:Hk; [|done].
           intros [= <-]. exists lo. split; [done|]. rewrite lookup_insert_eq.
           split; [by eexists|]. intros fs. unfold _getImmediateValue.
           rewrite Hr, Hd, Hce, Harr, Hmap. cbn. unfold mbind, M_bind, getProp.
           rewrite lookup_insert_eq, Hk.
           unfold elementValue. rewrite andb_false_r.
           case_decide as Hn.
           ++ by rewrite list_lookup_insert_eq.
           ++ rewrite lookup_app_r by lia.
              rewrite lookup_app_r by (rewrite length_replicate; lia).
              rewrite length_replicate, Nat.sub_diag. done.
        -- destruct (keyOf (_collectionElementIndex this)) as [n|s] eqn:Hk; [done|].
           rewrite assigned_other by congruence.
           intros [= <-]. exists lo. split; [done|]. rewrite lookup_insert_eq.
           split; [by eexists|]. intros fs. unfold _getImmediateValue.
           rewrite Hr, Hd, Hce, Harr, Hmap. cbn. unfold mbind, M_bind, getProp.
           rewrite lookup_insert_eq, Hk, (member_own _ _ v) by apply lookup_insert_eq.
           unfold elementValue. by rewrite andb_false_r.
      * unfold setProp. destruct parent as [| | | | |lo|]; try done.
        destruct (h !! lo) as [[xs|m]|] eqn:Hlo; try done.
        rewrite assigned_other by congruence.
        intros [= <-]. exists lo. split; [done|]. rewrite lookup_insert_eq.
        split; [by eexists|]. intros fs. unfold _getImmediateValue.
        rewrite Hr, Hd, Hce, Harr, Hmap. cbn. unfold mbind, M_bind, getProp.
        rewrite lookup_insert_eq, (member_own _ _ v) by apply lookup_insert_eq.
        by destruct v.
  - unfold setProp. destruct parent as [| | | | |lo|]; try done.
    destruct (h !! lo) as [[xs|m]|] eqn:Hlo; try done.
    rewrite assigned_other by congruence.
    intros [= <-]. exists lo. split; [done|]. rewrite lookup_insert_eq.
    split; [by eexists|]. intros fs. unfold _getImmediateValue.
    rewrite Hr, Hd, Hce, !andb_false_r. unfold mbind, M_bind, getProp.
    rewrite lookup_insert_eq, (member_own _ _ v) by apply lookup_insert_eq.
    by destruct v.
Qed.

Lemma setValueStep_leaf_Return v ins parent (this : RecordElementPointer PD PC)
    h c h' :
  setValueStep v ins parent this 0 h = (Return c, h') →
  setLeaf v ins parent this h = (Return (), h').
Proof.
  unfold setValueStep, mbind, M_bind, mret, M_ret. cbn [Nat.eqb].
  pose proof (getImmediateValue_leaf_heap this parent true h) as Hh.
  destruct (_getImmediateValue this parent 0 true h) as [[c0|e] h0]; [|done].
  cbn in Hh. subst h0.
  destruct (setLeaf v ins parent this h) as [[[]|e] h1]; [|done].
  by intros [= _ <-].
Qed.

Lemma checkValue_Return (this : RecordElementPointer PD PC) v :
  checkValue this v = Return () → isRoot this = false ∧ v ≠ VUndefined.
Proof.
  unfold checkValue. destruct (isRoot this); [done|]. by destruct v.
Qed.

(** Reading again from a parent that a new traversal reaches. *)
Lemma getValue_from_parent (this : RecordElementPointer PD PC) record parent
    lo v h' h'' :
  parent = VRef lo → is_Some (h' !! lo) →
  reduceRightFrom 1 getValueStep (ancestors this) record h' = (Return parent, h'') →
  (∀ fs, _getImmediateValue this parent 0 fs h' = (Return v, h')) →
  (getValue this record None h').1 = Return v.
Proof.
  intros -> [o Hlo] Hre Hread.
  unfold getValue, reduceRight. rewrite pointerChain_ancestors.
  cbn [reduceRightFrom]. rewrite (M_bind_Return_eq _ _ _ _ _ Hre).
  unfold getValueStep.
  rewrite (getImmediateValue_leaf_local this (VRef lo) false false h'' h').
  - by rewrite Hread.
  - intros l [= <-].
    pose proof (reduceRightFrom_unchanged 1 getValueStep (ancestors this) record h') as Hu.
    rewrite Hre in Hu. cbn in Hu. rewrite Hlo. apply Hu; [|done].
    intros acc x i h0 _. apply getImmediateValue_unchanged.
Qed.

(** X19. Reading back what was written: when [addValue] or [replaceValue]
    returns, the leaf is not the dash, it is not looked up under the name
    [__proto__], and reading the record again leads to the same parent for
    the leaf as the write did, [getValue] returns the value that was
    written. *)
Theorem write_then_read v insert (this : RecordElementPointer PD PC) record
    parent c h h1 h' h'' :
  reduceRightFrom 1 (setValueStep v insert) (ancestors this) record h
    = (Return parent, h1) →
  _setValue this record v insert h = (Return c, h') →
  isDashElement this = false →
  leafName this ≠ Some "__proto__" →
  reduceRightFrom 1 getValueStep (ancestors this) record h'
    = (Return parent, h'') →
  (getValue this record None h').1 = Return v.
Proof.
  intros Hup Hset Hnd Hname Hre. unfold _setValue in Hset.
  destruct (checkValue this v) as [[]|e] eqn:Hcheck; [|done].
  apply checkValue_Return in Hcheck as [Hr Hv].
  unfold reduceRight in Hset. rewrite pointerChain_ancestors in Hset.
  cbn [reduceRightFrom] in Hset.
  rewrite (M_bind_Return_eq _ _ _ _ _ Hup) in Hset.
  apply setValueStep_leaf_Return in Hset.
  destruct (setLeaf_then_read _ _ _ _ _ _ Hr Hnd Hname Hv Hset)
    as (lo & -> & Hlo & Hread).
  by eapply getValue_from_parent.
Qed.

Lemma removeValueStep_leaf_Return parent (this : RecordElementPointer PD PC)
    h c h' :
  removeValueStep parent this 0 h = (Return c, h') →
  _getImmediateValue this parent 0 false h = (Return c, h) ∧
  removeLeaf parent this h = (Return (), h').
Proof.
  unfold removeValueStep, mbind, M_bind, mret, M_ret. cbn [Nat.eqb].
  pose proof (getImmediateValue_leaf_heap this parent false h) as Hh.
  destruct (_getImmediateValue this parent 0 false h) as [[c0|e] h0]; [|done].
  cbn in Hh. subst h0.
  destruct (removeLeaf parent this h) as [[[]|e] h1]; [|done].
  by intros [= <- <-].
Qed.

Lemma removeLeaf_then_read parent (this : RecordElementPointer PD PC) d c h h' :
  isRoot this = false → _propDesc this = Some d →
  _collectionElement this && isArray d = false →
  (∀ k, leafName this = Some k → k ∉ objectPrototype) →
  _getImmediateValue this parent 0 false h = (Return c, h) →
  removeLeaf parent this h = (Return (), h') →
  ∃ lo, parent = VRef lo ∧ is_Some (h' !! lo) ∧
        ∀ fs, _getImmediateValue this parent 0 fs h'
              = (Return (if isMap d && _collectionElement this
                         then VUndefined else VNull), h').
Proof.
  intros Hr Hd Hna Hname. unfold leafName in Hname. revert Hname.
  unfold removeLeaf, _getImmediateValue.
  rewrite Hr, Hd, Hna, (andb_comm (isArray d)), Hna, (andb_comm (isMap d)).
  destruct (_collectionElement this && isMap d) eqn:Hm; intros Hname.
  - unfold mbind, M_bind, getProp, deleteProp.
    destruct parent as [| | | | |lo|]; try done. cbn [truthy].
    destruct (h !! lo) as [[xs|m]|] eqn:Hlo; try done;
      destruct (keyOf (_collectionElementIndex this)) as [n|s] eqn:Hk; try done.
    intros _ [= <-]. exists lo. split; [done|]. rewrite lookup_insert_eq.
    split; [by eexists|]. intros fs.
    by rewrite (member_absent _ _ (lookup_delete_eq m s) (Hname s eq_refl)).
  - unfold mbind, M_bind, getProp, deleteProp.
    destruct parent as [| | | | |lo|]; try done. cbn [truthy].
    destruct (h !! lo) as [[xs|m]|] eqn:Hlo; try done.
    intros _ [= <-]. exists lo. split; [done|]. rewrite lookup_insert_eq.
    split; [by eexists|]. intros fs.
    by rewrite (member_absent _ _ (lookup_delete_eq m (name d)) (Hname _ eq_refl)).
Qed.

(** X20. Reading after a removal: when [removeValue] returns, the leaf is
    not an array element, the name it is looked up under names no member of
    [Object.prototype], and reading the record again leads to the same
    parent for the leaf, [getValue] returns [undefined] for a map element
    and [null] for a property. *)
Theorem remove_then_read (this : RecordElementPointer PD PC) d record
    parent c h h1 h' h'' :
  _propDesc this = Some d →
  _collectionElement this && isArray d = false →
  (∀ k, leafName this = Some k → k ∉ objectPrototype) →
  reduceRightFrom 1 removeValueStep (ancestors this) record h
    = (Return parent, h1) →
  removeValue this record h = (Return c, h') →
  reduceRightFrom 1 getValueStep (ancestors this) record h'
    = (Return parent, h'') →
  (getValue this record None h').1 =
    Return (if isMap d && _collectionElement this then VUndefined else VNull).
Proof.
  intros Hd Hna Hname Hup Hrem Hre. unfold removeValue in Hrem.
  destruct (isRoot this) eqn:Hr; [done|].
  unfold reduceRight in Hrem. rewrite pointerChain_ancestors in Hrem.
  cbn [reduceRightFrom] in Hrem.
  rewrite (M_bind_Return_eq _ _ _ _ _ Hup) in Hrem.
  apply removeValueStep_leaf_Return in Hrem as [Hread Hleaf].
  destruct (removeLeaf_then_read _ _ _ _ _ _ Hr Hd Hna Hname Hread Hleaf)
    as (lo & -> & Hlo & Hread').
  by eapply getValue_from_parent.
Qed.

Lemma arrayLength_not_DataError obj h r h' :
  arrayLength obj h ≠ (Throw (X2DataError r), h').
Proof. unfold arrayLength. by repeat case_match. Qed.

Lemma arrayPush_not_DataError obj v h r h' :
  arrayPush obj v h ≠ (Throw (X2DataError r), h').
Proof. unfold arrayPush. by repeat case_match. Qed.

Lemma arraySplice_not_DataError obj n k items h r h' :
  arraySplice obj n k items h ≠ (Throw (X2DataError r), h').
Proof. unfold arraySplice. by repeat case_match. Qed.

Lemma deleteProp_not_DataError obj k h r h' :
  deleteProp obj k h ≠ (Throw (X2DataError r), h').
Proof. unfold deleteProp. by repeat case_match. Qed.

(** The leaf step of a write throws an [X2DataError] for an index out of
    bounds only. *)
Lemma leaf_DataError op obj (p : RecordElementPointer PD PC) h r h' :
  match op with
  | OpAdd v => setLeaf v true obj p
  | OpReplace v => setLeaf v false obj p
  | OpRemove => removeLeaf obj p
  end h = (Throw (X2DataError r), h') →
  r = IndexOutOfBounds ∧
  ∃ d, _propDesc p = Some d ∧ _collectionElement p && isArray d = true ∧
       isDash (_collectionElementIndex p) = false.
Proof.
  assert (∀ (g : nat → M ()),
    (∀ len h0, g len h0 = (Throw (X2DataError r), h') → r = IndexOutOfBounds) →
    (arrayLength obj ≫= g) h = (Throw (X2DataError r), h') →
    r = IndexOutOfBounds) as Hlen.
  { intros g Hg. unfold mbind, M_bind.
    destruct (arrayLength obj h) as [[len|err] h0] eqn:Hl; [apply Hg|].
    intros [= -> ->]. by apply arrayLength_not_DataError in Hl. }
  destruct op as [v|v|]; unfold setLeaf, removeLeaf, throw, mret, M_ret;
    destruct (_propDesc p) as [d|]; try done;
    destruct (_collectionElement p && isArray d) eqn:Ha.
  all: try (destruct (_collectionElement p && isMap d);
            intros Hx; first [by apply setProp_not_DataError in Hx
                             |by apply deleteProp_not_DataError in Hx]).
  all: try (destruct (truthy obj); [|done];
            destruct (_collectionElement p && isMap d);
            intros Hx; by apply deleteProp_not_DataError in Hx).
  all: destruct (isDash (_collectionElementIndex p)) eqn:Hdash; cbn [negb].
  all: try done.
  all: try (intros Hx; by apply arrayPush_not_DataError in Hx).
  all: try (destruct (truthy obj); [|by intros [= <- _]; eauto 6]).
  all: destruct (_collectionElementIndex p) as [[n|s]|]; try done.
  all: intros Hx; split; [|by eauto 6]; revert Hx; apply Hlen; intros len h0.
  all: destruct (n <? N.of_nat len)%N; [|by intros [= <- _]].
  all: try (intros Hx; by apply arraySplice_not_DataError in Hx).
  all: intros Hx; by apply setProp_not_DataError in Hx.
Qed.

(** X13. When [addValue], [replaceValue] or [removeValue] throws an
    [X2DataError], either a value is missing at one of the nodes above the
    leaf, which the message names, or the leaf is an array element with a
    number for index and the index is out of bounds. *)
Theorem write_DataError op (this : RecordElementPointer PD PC) record h r h' :
  run op this record h = (Throw (X2DataError r), h') →
  (∃ p, p ∈ ancestors this ∧ r = NoPropertyValue (toString p)) ∨
  (r = IndexOutOfBounds ∧
   ∃ d, _propDesc this = Some d ∧ _collectionElement this && isArray d = true ∧
        isDash (_collectionElementIndex this) = false).
Proof.
  intros Hrun.
  assert (valueAccepted op this ∧ isRoot this = false) as [Hv Hr].
  { assert (∀ v ins,
      _setValue this record v ins h = (Throw (X2DataError r), h') →
      checkValue this v = Return () ∧ isRoot this = false) as Hset.
    { intros v ins. unfold _setValue, throw.
      destruct (checkValue this v) as [[]|e] eqn:Hc.
      - intros _. split; [done|]. by apply checkValue_Return in Hc as [? _].
      - intros [= -> _]. revert Hc. unfold checkValue. by repeat case_match. }
    destruct op as [v|v|]; cbn in Hrun |- *.
    - apply (Hset v true Hrun).
    - apply (Hset v false Hrun).
    - revert Hrun. unfold removeValue, throw. by destruct (isRoot this). }
  rewrite run_loop in Hrun by done. unfold reduceRight in Hrun.
  rewrite pointerChain_ancestors in Hrun. cbn [reduceRightFrom] in Hrun.
  unfold mbind, M_bind in Hrun.
  destruct (reduceRightFrom 1 (stepOf op) (ancestors this) record h)
    as [[parent|e] h1] eqn:Hup.
  - right.
    pose proof (getImmediateValue_leaf_heap this parent (forSetOf op) h1) as Hh.
    assert (∀ (leaf : M ()) fs,
      (_getImmediateValue this parent 0 fs ≫= λ c, leaf ≫= λ _, mret c) h1
        = (Throw (X2DataError r), h') →
      leaf h1 = (Throw (X2DataError r), h')) as Hleaf.
    { intros leaf fs. unfold mbind, M_bind, mret, M_ret.
      pose proof (getImmediateValue_leaf_heap this parent fs h1) as Hh1.
      destruct (_getImmediateValue this parent 0 fs h1) as [[c|e] h0] eqn:Hg;
        cbn in Hh1; subst h0.
      - destruct (leaf h1) as [[[]|e] h0]; [done|]. by intros [= -> ->].
      - intros [= -> ->]. apply getImmediateValue_DataError in Hg as [_ ?]. lia. }
    apply (leaf_DataError op parent this h1 r h').
    destruct op as [v|v|]; cbn [stepOf] in Hrun;
      unfold setValueStep, removeValueStep in Hrun; cbn [Nat.eqb] in Hrun;
      by apply Hleaf in Hrun.
  - left. injection Hrun as -> ->.
    eapply reduceRightFrom_DataError; [|done].
    intros acc p i h0 r0 h2 Hi Hx. destruct i as [|i]; [lia|].
    rewrite stepOf_above in Hx. by apply getImmediateValue_DataError in Hx as [-> _].
Qed.

(** A step that returns above the leaf returns the same one place nearer
    to the leaf, as long as that is still above the leaf. *)
Lemma getImmediateValue_nearer (p : RecordElementPointer PD PC) obj i h v h' :
  _getImmediateValue p obj (S (S i)) false h = (Return v, h') →
  _getImmediateValue p obj (S i) false h = (Return v, h').
Proof.
  unfold _getImmediateValue, elementValue.
  destruct (isRoot p); [done|]. destruct (_propDesc p) as [d|]; [|done].
  destruct (isArray d && _collectionElement p); [done|].
  destruct (isMap d && _collectionElement p); [done|].
  unfold mbind, M_bind. destruct (getProp _ _ _) as [[v0|e] h0]; [|done].
  by destruct (match v0 with VUndefined => VNull | _ => v0 end).
Qed.

Lemma reduceRightFrom_nearer (l : list (RecordElementPointer PD PC)) k
    record h v h' :
  reduceRightFrom (S (S k)) getValueStep l record h = (Return v, h') →
  reduceRightFrom (S k) getValueStep l record h = (Return v, h').
Proof.
  revert k v h'. induction l as [|x l IH]; intros k v h'; [done|].
  cbn [reduceRightFrom].
  intros (acc & h1 & Hup & Hx)%M_bind_Return_inv.
  rewrite (M_bind_Return_eq _ _ _ _ _ (IH _ _ _ Hup)).
  by apply getImmediateValue_nearer.
Qed.

(** At the node just above the leaf a step that returns either returns
    what the same step returns at the leaf, or puts an empty container in
    the place of the [null] that the step returns at the leaf. *)
Lemma getImmediateValue_at_leaf (p : RecordElementPointer PD PC) obj h v h' :
  _getImmediateValue p obj 1 false h = (Return v, h') →
  _getImmediateValue p obj 0 false h = (Return v, h) ∨
  _getImmediateValue p obj 0 false h = (Return VNull, h).
Proof.
  unfold _getImmediateValue, elementValue.
  destruct (isRoot p); [intros [= <- <-]; by left|].
  destruct (_propDesc p) as [d|]; [|done].
  assert (∀ k, (getProp obj k ≫= λ val,
                 if isNullish val && (0 <? 1)%nat then throw (noValue p) else mret val) h
               = (Return v, h') →
     (getProp obj k ≫= λ val,
        if isNullish val && (0 <? 0)%nat then throw (noValue p) else mret val) h
       = (Return v, h)) as Helem.
  { intros k. unfold mbind, M_bind.
    pose proof (getProp_heap obj k h) as Hh.
    destruct (getProp obj k h) as [[v0|e] h0]; [|done]. cbn in Hh. subst h0.
    rewrite andb_false_r. destruct (isNullish v0); [done|]. by intros [= <- <-]. }
  destruct (isArray d && _collectionElement p).
  { destruct (negb (isDash (_collectionElementIndex p))).
    - intros Hx. left. by apply Helem.
    - intros [= <- <-]. by left. }
  destruct (isMap d && _collectionElement p).
  { intros Hx. left. by apply Helem. }
  unfold mbind, M_bind.
  pose proof (getProp_heap obj (KString (name d)) h) as Hh.
  destruct (getProp obj (KString (name d)) h) as [[v0|e] h0]; [|done].
  cbn in Hh. subst h0.
  destruct (match v0 with VUndefined => VNull | _ => v0 end) eqn:Hv0;
    try (intros [= <- <-]; by left).
  intros _. by right.
Qed.

(** X21. What can be read has a parent that can be read: when [getValue]
    returns for a pointer, it returns for its parent too, on the same
    record. *)
Theorem getValue_parent (this q : RecordElementPointer PD PC) record h v h' :
  _parent this = Some q →
  getValue this record None h = (Return v, h') →
  ∃ pv, getValue q record None h = (Return pv, h).
Proof.
  intros Hq. unfold getValue, reduceRight.
  rewrite (chain_two _ _ Hq), (pointerChain_ancestors q). cbn [reduceRightFrom].
  intros (parent & h1 & Hup & _)%M_bind_Return_inv.
  apply M_bind_Return_inv in Hup as (obj & h2 & Hup & Hstep).
  assert (h2 = h) as ->.
  { pose proof (reduceRightFrom_same_heap 2 getValueStep (ancestors q) record h) as Hh.
    rewrite Hup in Hh. apply Hh.
    intros acc x i h0 Hi. destruct i as [|[|i]]; [lia|lia|].
    apply getImmediateValue_same_heap. lia. }
  rewrite (M_bind_Return_eq _ _ _ _ _ (reduceRightFrom_nearer _ _ _ _ _ _ Hup)).
  unfold getValueStep in *.
  destruct (getImmediateValue_at_leaf _ _ _ _ _ Hstep) as [-> | ->]; eauto.
Qed.

(** A step that returns two places or more above the leaf returns the
    same wherever the node is in the chain. *)
Lemma getImmediateValue_anywhere (p : RecordElementPointer PD PC) obj i j h v h' :
  _getImmediateValue p obj (S (S i)) false h = (Return v, h') →
  _getImmediateValue p obj j false h = (Return v, h').
Proof.
  unfold _getImmediateValue, elementValue.
  destruct (isRoot p); [done|]. destruct (_propDesc p) as [d|]; [|done].
  assert (∀ k, (getProp obj k ≫= λ val,
                 if isNullish val && (0 <? S (S i))%nat
                 then throw (noValue p) else mret val) h = (Return v, h') →
     (getProp obj k ≫= λ val,
        if isNullish val && (0 <? j)%nat then throw (noValue p) else mret val) h
       = (Return v, h')) as Helem.
  { intros k. unfold mbind, M_bind.
    destruct (getProp obj k h) as [[v0|e] h0]; [|done].
    by destruct (isNullish v0). }
  destruct (isArray d && _collectionElement p).
  { destruct (negb (isDash (_collectionElementIndex p))); [apply Helem|done]. }
  destruct (isMap d && _collectionElement p); [apply Helem|].
  unfold mbind, M_bind. destruct (getProp _ _ _) as [[v0|e] h0]; [|done].
  by destruct (match v0 with VUndefined => VNull | _ => v0 end).
Qed.

Lemma reduceRightFrom_anywhere (l : list (RecordElementPointer PD PC)) k j
    record h v h' :
  reduceRightFrom (S (S k)) getValueStep l record h = (Return v, h') →
  reduceRightFrom j getValueStep l record h = (Return v, h').
Proof.
  revert k j v h'. induction l as [|x l IH]; intros k j v h'; [done|].
  cbn [reduceRightFrom].
  intros (acc & h1 & Hup & Hx)%M_bind_Return_inv.
  rewrite (M_bind_Return_eq _ _ _ _ _ (IH (S k) (S j) _ _ Hup)).
  by apply (getImmediateValue_anywhere _ _ k).
Qed.

(** What a step returns at the node just above the leaf is what the same
    step returns at the leaf, or a container that it has just created. *)
Lemma getImmediateValue_parent_value (p : RecordElementPointer PD PC) obj fs h v h' :
  _getImmediateValue p obj 1 fs h = (Return v, h') →
  _getImmediateValue p obj 0 false h = (Return v, h) ∨ v = VRef (fresh (dom h)).
Proof.
  unfold _getImmediateValue, elementValue.
  destruct (isRoot p); [intros [= <- <-]; by left|].
  destruct (_propDesc p) as [d|]; [|done].
  assert (∀ k, (getProp obj k ≫= λ val,
                 if isNullish val && (0 <? 1)%nat then throw (noValue p) else mret val) h
               = (Return v, h') →
     (getProp obj k ≫= λ val,
        if isNullish val && (0 <? 0)%nat then throw (noValue p) else mret val) h
       = (Return v, h)) as Helem.
  { intros k. unfold mbind, M_bind.
    pose proof (getProp_heap obj k h) as Hh.
    destruct (getProp obj k h) as [[v0|e] h0]; [|done]. cbn in Hh. subst h0.
    rewrite andb_false_r. destruct (isNullish v0); [done|]. by intros [= <- <-]. }
  destruct (isArray d && _collectionElement p).
  { destruct (negb (isDash (_collectionElementIndex p))).
    - intros Hx. left. by apply Helem.
    - intros [= <- <-]. by left. }
  destruct (isMap d && _collectionElement p).
  { intros Hx. left. by apply Helem. }
  unfold mbind, M_bind.
  pose proof (getProp_heap obj (KString (name d)) h) as Hh.
  destruct (getProp obj (KString (name d)) h) as [[v0|e] h0]; [|done].
  cbn in Hh. subst h0.
  destruct (match v0 with VUndefined => VNull | _ => v0 end) eqn:Hv0;
    try (intros [= <- <-]; by left).
  cbn [Nat.ltb Nat.leb]. intros Hx. right.
  destruct (isArray d); [|destruct (isMap d); [|done]];
    unfold alloc, mret, M_ret in Hx;
    destruct fs; repeat case_match; by simplify_eq.
Qed.

(** X18. What a write leaves alone, whether it returns or throws: every
    object of the store is as it was, but for the object that is the value
    of the parent of the pointer (the leaf is written, inserted or deleted
    in it) and, for [addValue] and [replaceValue], the object that is the
    value of the parent of that parent (a container that is created for the
    leaf is written into it). *)
Theorem write_frame op (this q : RecordElementPointer PD PC) record h l o :
  _parent this = Some q →
  h !! l = Some o →
  (getValue q record None h).1 ≠ Return (VRef l) →
  (∀ g, forSetOf op = true → _parent q = Some g →
        (getValue g record None h).1 ≠ Return (VRef l)) →
  (run op this record h).2 !! l = Some o.
Proof.
  intros Hq Hl Hparent Habove.
  assert (isRoot this = false) as Hr by (unfold isRoot; by rewrite Hq).
  assert (valueAccepted op this ∨ (run op this record h).2 = h) as [Hv|Hh].
  { destruct op as [v|v|]; cbn; [| |by left];
      unfold addValue, replaceValue, _setValue;
      destruct (checkValue this v) as [[]|e]; eauto. }
  2: by rewrite Hh.
  rewrite run_loop by done.
  unfold reduceRight. rewrite (chain_two _ _ Hq). cbn [reduceRightFrom].
  unfold mbind, M_bind.
  pose proof (reduceRightFrom_same_heap 2 (stepOf op) (ancestors q) record h) as Hh.
  destruct (reduceRightFrom 2 (stepOf op) (ancestors q) record h)
    as [[obj2|e] h2] eqn:Hup; cbn in Hh.
  all: assert (h2 = h) as -> by
    (apply Hh; intros acc x i h0 Hi; destruct i as [|[|i]]; [lia|lia|];
     rewrite stepOf_above; apply getImmediateValue_same_heap; lia).
  2: done.
  clear Hh.
  rewrite (reduceRightFrom_ext 2 _ getValueStep) in Hup; last first.
  { intros acc x i h0 Hi. destruct i as [|[|i]]; [lia|lia|].
    rewrite stepOf_above. destruct op; cbn [forSetOf]; try done;
      by apply getImmediateValue_forSet. }
  rewrite stepOf_above.
  pose proof (getImmediateValue_frame q obj2 1 (forSetOf op) h) as H1.
  assert ((_getImmediateValue q obj2 1 (forSetOf op) h).2 !! l = Some o) as Hl1.
  { destruct (_parent q) as [g|] eqn:Hg.
    - apply H1; [done|].
      destruct (forSetOf op) eqn:Hfs; [|apply not_elem_of_nil].
      intros <-%list_elem_of_singleton.
      apply (Habove g eq_refl eq_refl). unfold getValue, reduceRight.
      unfold ancestors in Hup. rewrite Hg in Hup.
      by rewrite (reduceRightFrom_anywhere _ _ 0 _ _ _ _ Hup).
    - unfold _getImmediateValue, isRoot. by rewrite Hg. }
  destruct (_getImmediateValue q obj2 1 (forSetOf op) h) as [[obj1|e] h1] eqn:Hstep;
    cbn [snd] in Hl1; [|done].
  assert (obj1 ≠ VRef l) as Hne.
  { destruct (getImmediateValue_parent_value _ _ _ _ _ _ Hstep) as [Hleaf | ->].
    - intros ->. apply Hparent. unfold getValue, reduceRight.
      rewrite pointerChain_ancestors. cbn [reduceRightFrom].
      rewrite (M_bind_Return_eq _ _ _ _ _ (reduceRightFrom_nearer _ _ _ _ _ _ Hup)).
      unfold getValueStep. by rewrite Hleaf.
    - intros [= <-]. by rewrite fresh_lookup in Hl. }
  pose proof (stepOf_leaf_frame op obj1 this h1 l o Hl1) as H0.
  destruct (stepOf op obj1 this 0 h1) as [[c|e] h']; cbn [snd] in *;
    apply H0; intros ?%list_elem_of_singleton; congruence.
Qed.

End MoreNavigatorFacts.

(** ** These properties on the sample record type *)

Import Sample.

Lemma parse_root_iff_empty_witness :
  parse Order "/items" false = Return (pointer "/items") ∧
  (isRoot (pointer "/items") = true ↔ "/items" = "").
Proof.
  split; [reflexivity|].
  apply (parse_root_iff_empty Order "/items" false (pointer "/items")).
  reflexivity.
Defined.

Lemma sample_valid (s : string) p :
  parse Order s false = Return p → validPointer Order p.
Proof. apply parse_valid. Qed.

Lemma toString_parse_roundtrip_witness :
  validPointer Order (pointer "/tags/a~1b") ∧
  parse Order (toString (pointer "/tags/a~1b")) false = Return (pointer "/tags/a~1b").
Proof.
  assert (validPointer Order (pointer "/tags/a~1b")) as Hv
    by (apply (sample_valid "/tags/a~1b"); reflexivity).
  split; [exact Hv|].
  apply (toString_parse_roundtrip Order (pointer "/tags/a~1b") Hv).
Defined.

Lemma isChildOf_iff_ancestor_witness :
  isChildOf (pointer "/items/0/quantity") (pointer "/items") = true ↔
  pointer "/items" ∈ ancestors (pointer "/items/0/quantity").
Proof.
  apply (isChildOf_iff_ancestor Order).
  - apply (sample_valid "/items/0/quantity"); reflexivity.
  - apply (sample_valid "/items"); reflexivity.
Defined.

Lemma isChildOf_strict_order_witness :
  isChildOf (pointer "/items/0/quantity") (pointer "/items/0") = true ∧
  isChildOf (pointer "/items/0") (pointer "/items") = true ∧
  isChildOf (pointer "/items/0/quantity") (pointer "/items") = true.
Proof.
  split; [reflexivity|]. split; [reflexivity|].
  apply (isChildOf_strict_order (pointer "/items/0/quantity")
           (pointer "/items/0") (pointer "/items")); reflexivity.
Defined.

Lemma validPointer_fields_witness :
  validPointer Order (pointer "/items/0") ∧
  ∃ d, propDesc (pointer "/items/0") = Some d ∧
       propDesc (pointer "/items") = Some d ∧
       propPath (pointer "/items") = propPath (pointer "/items/0").
Proof.
  assert (validPointer Order (pointer "/items/0")) as Hv
    by (apply (sample_valid "/items/0"); reflexivity).
  split; [exact Hv|].
  destruct (validPointer_fields Order (pointer "/items/0") Hv)
    as (d & Hd & _ & _ & Hq & Hpath & _).
  exists d. repeat split; assumption.
Defined.

Lemma dash_only_at_leaf_witness :
  validPointer Order (pointer "/items/0/quantity") ∧
  pointer "/items/0" ∈ ancestors (pointer "/items/0/quantity") ∧
  isDashElement (pointer "/items/0") = false.
Proof.
  assert (validPointer Order (pointer "/items/0/quantity")) as Hv
    by (apply (sample_valid "/items/0/quantity"); reflexivity).
  assert (pointer "/items/0" ∈ ancestors (pointer "/items/0/quantity")) as Ha
    by (apply (list_elem_of_lookup_2 _ 0%nat); reflexivity).
  split; [exact Hv|]. split; [exact Ha|].
  apply (dash_only_at_leaf Order (pointer "/items/0/quantity") _ Hv Ha).
Defined.

Lemma pointerChain_length_witness :
  validPointer Order (pointer "/items/0/quantity") ∧
  length (pointerChain (pointer "/items/0/quantity"))
    = length (Text.split (toString (pointer "/items/0/quantity"))).
Proof.
  assert (validPointer Order (pointer "/items/0/quantity")) as Hv
    by (apply (sample_valid "/items/0/quantity"); reflexivity).
  split; [exact Hv|].
  apply (pointerChain_length Order _ Hv).
Defined.

Lemma toString_wellFormed_witness :
  validPointer Order (pointer "/tags/~") ∧
  toString (pointer "/tags/~") = "/tags/~0" ∧
  Text.wellEscaped (toString (pointer "/tags/~")) = true.
Proof.
  assert (validPointer Order (pointer "/tags/~")) as Hv
    by (apply (sample_valid "/tags/~"); reflexivity).
  split; [exact Hv|]. split; [reflexivity|].
  apply (toString_wellFormed Order (pointer "/tags/~") Hv).
Defined.

Lemma parse_noDash_witness :
  parse Order "/items/-" false = Return (pointer "/items/-") ∧
  isDashElement (pointer "/items/-") = true ∧
  parse Order "/items/-" true = Throw (X2SyntaxError DashNotAllowed "/items/-").
Proof.
  split; [reflexivity|]. split; [reflexivity|].
  apply (parse_noDash Order "/items/-" (pointer "/items/-")); reflexivity.
Defined.

Lemma syntax_error_quotes_witness :
  parse Order "/items/x" false = Throw (X2SyntaxError InvalidArrayIndex "/items/x") ∧
  "/items/x" = "/items/x".
Proof.
  split; [reflexivity|].
  apply (syntax_error_quotes Order (pointer "") "/items/x" "" false
           InvalidArrayIndex "/items/x").
  reflexivity.
Defined.

Lemma no_pointer_below_scalar_witness :
  validPointer Order (pointer "/id") ∧
  ∀ rest noDash, ∃ why,
    parse Order (toString (pointer "/id") +:+ "/" +:+ rest) noDash
      = Throw (X2SyntaxError why (toString (pointer "/id") +:+ "/" +:+ rest)).
Proof.
  assert (validPointer Order (pointer "/id")) as Hv
    by (apply (sample_valid "/id"); reflexivity).
  split; [exact Hv|].
  apply (no_pointer_below_scalar Order (pointer "/id") P_id Hv);
    [reflexivity|reflexivity|reflexivity|right; split; reflexivity].
Defined.

Lemma getValue_trace_neutral_witness :
  getValue (pointer "/items/0/quantity") record (Some noTrace) order
    = getValue (pointer "/items/0/quantity") record None order.
Proof.
  apply (getValue_trace_neutral (pointer "/items/0/quantity") record noTrace order).
  intros p v i h0. reflexivity.
Defined.

Lemma getValue_DataError_names_ancestor_witness :
  getValue (pointer "/items/0/quantity") record None emptyOrder
    = (Throw (X2DataError (NoPropertyValue "/items")), emptyOrder) ∧
  ∃ p, p ∈ ancestors (pointer "/items/0/quantity") ∧
       NoPropertyValue "/items" = NoPropertyValue (toString p).
Proof.
  assert (getValue (pointer "/items/0/quantity") record None emptyOrder
    = (Throw (X2DataError (NoPropertyValue "/items")), emptyOrder)) as Hg
    by (by vm_compute).
  split; [exact Hg|].
  exact (getValue_DataError_names_ancestor _ _ _ _ _ Hg).
Defined.

Lemma write_DataError_witness :
  run (OpAdd (VNumber 1)) (pointer "/items/0") record order2
    = (Throw (X2DataError IndexOutOfBounds), order2) ∧
  ((∃ p, p ∈ ancestors (pointer "/items/0") ∧
         IndexOutOfBounds = NoPropertyValue (toString p)) ∨
   (IndexOutOfBounds = IndexOutOfBounds ∧
    ∃ d, _propDesc (pointer "/items/0") = Some d ∧
         _collectionElement (pointer "/items/0") && isArray d = true ∧
         isDash (_collectionElementIndex (pointer "/items/0")) = false)).
Proof.
  assert (run (OpAdd (VNumber 1)) (pointer "/items/0") record order2
    = (Throw (X2DataError IndexOutOfBounds), order2)) as Hr by (by vm_compute).
  split; [exact Hr|].
  exact (write_DataError _ _ _ _ _ _ Hr).
Defined.

Lemma addValue_replaceValue_same_witness :
  addValue (pointer "/tags/a") record (VString "y") order2
    = replaceValue (pointer "/tags/a") record (VString "y") order2.
Proof.
  apply (addValue_replaceValue_same (pointer "/tags/a") record (VString "y") order2).
  intros d [= <-]. reflexivity.
Defined.

Lemma array_leaf_in_bounds_witness :
  run (OpAdd (VNumber 5)) (pointer "/items/0") record order
    = (Return (VRef 3%positive),
       <[2%positive := JArray [VNumber 5; VRef 3%positive]]> order) ∧
  run OpRemove (pointer "/items/0") record order
    = (Return (VRef 3%positive), <[2%positive := JArray []]> order).
Proof.
  split.
  - apply (array_leaf_in_bounds (OpAdd (VNumber 5)) (pointer "/items/0") P_items
             0%N record 2%positive [VRef 3%positive] (VRef 3%positive) order order);
      by vm_compute.
  - apply (array_leaf_in_bounds OpRemove (pointer "/items/0") P_items
             0%N record 2%positive [VRef 3%positive] (VRef 3%positive) order order);
      by vm_compute.
Defined.

Lemma dash_leaf_witness :
  run (OpAdd (VNumber 5)) (pointer "/items/-") record order
    = (Return VUndefined, <[2%positive := JArray [VRef 3%positive; VNumber 5]]> order) ∧
  run OpRemove (pointer "/items/-") record order
    = (Throw (X2UsageError DeleteDashIndex), order).
Proof.
  split.
  - apply (dash_leaf (OpAdd (VNumber 5)) (pointer "/items/-") P_items record
             2%positive [VRef 3%positive] order order); by vm_compute.
  - apply (dash_leaf OpRemove (pointer "/items/-") P_items record
             2%positive [VRef 3%positive] order order); by vm_compute.
Defined.

Lemma keyed_leaf_witness :
  run (OpReplace (VNumber 7)) (pointer "/items/0/quantity") record order
    = (Return (VNumber 2),
       <[3%positive := JObject (<["quantity" := VNumber 7]> {["quantity" := VNumber 2]})]> order) ∧
  run OpRemove (pointer "/tags/a") record order2
    = (Return (VString "x"),
       <[3%positive := JObject (delete "a" {["a" := VString "x"]})]> order2).
Proof.
  split.
  - apply (keyed_leaf (OpReplace (VNumber 7)) (pointer "/items/0/quantity")
             P_quantity "quantity" (VNumber 2) record 3%positive
             {["quantity" := VNumber 2]} order order);
      first [by vm_compute | decide_name | left; repeat split; by vm_compute].
  - apply (keyed_leaf OpRemove (pointer "/tags/a") P_tags "a" (VString "x")
             record 3%positive {["a" := VString "x"]} order2 order2);
      first [by vm_compute | decide_name | right; repeat split; by vm_compute].
Defined.

Lemma write_then_read_witness :
  _setValue (pointer "/items/0/quantity") record (VNumber 7) false order
    = (Return (VNumber 2),
       (_setValue (pointer "/items/0/quantity") record (VNumber 7) false order).2) ∧
  (getValue (pointer "/items/0/quantity") record None
     (_setValue (pointer "/items/0/quantity") record (VNumber 7) false order).2).1
    = Return (VNumber 7).
Proof.
  split; [by vm_compute|].
  apply (write_then_read (VNumber 7) false (pointer "/items/0/quantity") record
           (VRef 3%positive) (VNumber 2) order order
           (_setValue (pointer "/items/0/quantity") record (VNumber 7) false order).2
           (_setValue (pointer "/items/0/quantity") record (VNumber 7) false order).2);
    by vm_compute.
Defined.

Lemma remove_then_read_witness :
  removeValue (pointer "/tags/a") record order2
    = (Return (VString "x"), (removeValue (pointer "/tags/a") record order2).2) ∧
  (getValue (pointer "/tags/a") record None
     (removeValue (pointer "/tags/a") record order2).2).1 = Return VUndefined.
Proof.
  split; [by vm_compute|].
  etrans.
  - apply (remove_then_read (pointer "/tags/a") P_tags record (VRef 3%positive)
             (VString "x") order2 order2
             (removeValue (pointer "/tags/a") record order2).2
             (removeValue (pointer "/tags/a") record order2).2);
      first [by vm_compute
            | intros k Hk; vm_compute in Hk; injection Hk as <-; decide_name].
  - reflexivity.
Defined.

Lemma write_frame_witness :
  (run (OpAdd (VNumber 5)) (pointer "/items/-") record order).2 !! 3%positive
    = Some (JObject {["quantity" := VNumber 2]}).
Proof.
  apply (write_frame (OpAdd (VNumber 5)) (pointer "/items/-") (pointer "/items")
           record order 3%positive);
    first [by vm_compute
          | intros g _ Hg; vm_compute in Hg; injection Hg as <-; by vm_compute].
Defined.

(** Keys that name members of [Object.prototype]. A map that does not have
    the key [toString] gives the inherited function for it, before a write
    and after a removal; a write gives the map the key. The key [__proto__]
    cannot be given to a map that does not have it: writing a string under
    it stores nothing, and the map goes on giving [Object.prototype]. *)
Example inherited_keys :
  getValue (pointer "/tags/toString") record None order2
    = (Return (VNative "toString"), order2) ∧
  addValue (pointer "/tags/toString") record (VString "v") order2
    = (Return (VNative "toString"),
       <[3%positive := JObject (<["toString" := VString "v"]> {["a" := VString "x"]})]>
         order2) ∧
  removeValue (pointer "/tags/toString") record order2
    = (Return (VNative "toString"), order2) ∧
  addValue (pointer "/tags/__proto__") record (VString "v") order2
    = (Return (VNative "__proto__"), order2) ∧
  getValue (pointer "/tags/__proto__") record None
      (addValue (pointer "/tags/__proto__") record (VString "v") order2).2
    = (Return (VNative "__proto__"), order2).
Proof. repeat split; by vm_compute. Qed.

Lemma getValue_parent_witness :
  getValue (pointer "/items/0/quantity") record None order = (Return (VNumber 2), order) ∧
  ∃ pv, getValue (pointer "/items/0") record None order = (Return pv, order).
Proof.
  split; [by vm_compute|].
  apply (getValue_parent (pointer "/items/0/quantity") (pointer "/items/0")
           record order (VNumber 2) order); by vm_compute.
Defined.
